(** * VibeCapsule: the provider-agnostic streaming gateway

    A shallow embedding of the TypeScript services of the extension
    (llm.ts, the OpenAI service, anthropic.ts, gemini.ts) and of the two
    pieces of the side panel that choose and refresh models
    (pickBestModel and the debounced auto-fetch effects of App), followed by
    the properties of the specification that were checked against them.

    Conventions.
    - A JavaScript string is the list of its UTF-16 code units.
    - A value produced by JSON.parse, or [undefined], is a [jsval].
    - An async generator run is the list of the values it yielded together
      with the way it ended.
    - The network is an explicit argument: a function from requests to
      fetch results. *)

From Stdlib Require Import Ascii String DecimalString List NArith ZArith Bool Lia.
From Stdlib Require Import Permutation Sorted.
From Stdlib.Strings Require Import Byte.
Import ListNotations.

Set Warnings "-register-all".

(* ================================================================== *)
(** * JavaScript strings *)
(* ================================================================== *)

Module JS.

Definition codeunit := N.
Definition jsstring := list codeunit.

Definition QUOTE : codeunit := 34%N.
Definition DOLLAR : codeunit := 36%N.
Definition AMP : codeunit := 38%N.
Definition APOSTROPHE : codeunit := 39%N.
Definition BACKSLASH : codeunit := 92%N.
Definition BACKTICK : codeunit := 96%N.
Definition LBRACE : codeunit := 123%N.
Definition RBRACE : codeunit := 125%N.
Definition NEWLINE : codeunit := 10%N.

(** A string literal of the source.  Rocq literals have no escapes, so a
    backslash stands for itself. *)
Definition lit (s : string) : jsstring :=
  map N_of_ascii (list_ascii_of_string s).

(** A literal in which every apostrophe stands for a double quote: used to
    write JSON text. *)
Definition dq (s : string) : jsstring :=
  map (fun c => if N.eqb c APOSTROPHE then QUOTE else c) (lit s).

Fixpoint eqb (a b : jsstring) : bool :=
  match a, b with
  | [], [] => true
  | x :: a', y :: b' => N.eqb x y && eqb a' b'
  | _, _ => false
  end.

(** [s.startsWith(p)] *)
Fixpoint startsWith (s p : jsstring) : bool :=
  match p, s with
  | [], _ => true
  | x :: p', y :: s' => N.eqb x y && startsWith s' p'
  | _ :: _, [] => false
  end.

(** [s.slice(n)] and [s.substring(n)] for [0 <= n]. *)
Definition slice (s : jsstring) (n : nat) : jsstring := skipn n s.

(** [s.substring(a, b)] for [0 <= a <= b]. *)
Definition substring (s : jsstring) (a b : nat) : jsstring :=
  firstn (b - a) (skipn a s).

(** [s.includes(p)] *)
Fixpoint includes (s p : jsstring) : bool :=
  startsWith s p ||
  match s with
  | [] => false
  | _ :: s' => includes s' p
  end.

(** WhiteSpace and LineTerminator code units of ECMAScript, the ones
    [trim] strips. *)
Definition is_space (c : codeunit) : bool :=
  ((9 <=? c) && (c <=? 13) || (c =? 32) || (c =? 160) || (c =? 5760)
   || (8192 <=? c) && (c <=? 8202)
   || (c =? 8232) || (c =? 8233) || (c =? 8239) || (c =? 8287)
   || (c =? 12288) || (c =? 65279))%N.

Fixpoint trimStart (s : jsstring) : jsstring :=
  match s with
  | c :: s' => if is_space c then trimStart s' else s
  | [] => []
  end.

Definition trimEnd (s : jsstring) : jsstring := rev (trimStart (rev s)).

(** [s.trim()] *)
Definition trim (s : jsstring) : jsstring := trimEnd (trimStart s).

(** [s.split(sep)] for a separator of one code unit: the segments between
    the separators, never an empty array. *)
Fixpoint split (sep : codeunit) (s : jsstring) : list jsstring :=
  match s with
  | [] => [[]]
  | c :: s' =>
      if N.eqb c sep then [] :: split sep s'
      else match split sep s' with
           | seg :: segs => (c :: seg) :: segs
           | [] => [[c]]
           end
  end.

(** [a.pop()]: the array without its last element, and that element
    ([None] for [undefined], when the array is empty). *)
Definition pop {A : Type} (a : list A) : list A * option A :=
  match rev a with
  | [] => ([], None)
  | x :: r => (rev r, Some x)
  end.

(** [lines.pop() || ''] *)
Definition or_empty (o : option jsstring) : jsstring :=
  match o with
  | Some s => s
  | None => []
  end.

(** Position of the first occurrence of the code unit [c] in [s]. *)
Fixpoint find_unit (c : codeunit) (s : jsstring) : option nat :=
  match s with
  | [] => None
  | x :: s' => if N.eqb x c then Some 0
               else option_map S (find_unit c s')
  end.

(** [s.indexOf(c, cursor)] for a pattern of one code unit and
    [0 <= cursor]; [None] is -1. *)
Definition indexOf (s : jsstring) (c : codeunit) (cursor : nat) : option nat :=
  option_map (Nat.add cursor) (find_unit c (skipn cursor s)).

(** [s[i]]: [None] is [undefined]. *)
Definition charAt (s : jsstring) (i : nat) : option codeunit := nth_error s i.

(** [s[i - 1]]; for [i = 0] this is [s[-1]], which is [undefined]. *)
Definition charBefore (s : jsstring) (i : nat) : option codeunit :=
  match i with
  | O => None
  | S j => nth_error s j
  end.

(** Position of the first occurrence of [p] in [s], counted from [pos]. *)
Fixpoint search (s p : jsstring) (pos : nat) : option nat :=
  if startsWith s p then Some pos
  else match s with
       | [] => None
       | _ :: s' => search s' p (S pos)
       end.

(** GetSubstitution of ECMAScript for a string pattern (no captures):
    [$$] is a dollar, [$&] the match, [$`] the text before it, [$'] the
    text after it; every other dollar stands for itself. *)
Fixpoint GetSubstitution (matched before after repl : jsstring) : jsstring :=
  match repl with
  | [] => []
  | c :: r =>
      if N.eqb c DOLLAR then
        match r with
        | d :: r' =>
            if N.eqb d DOLLAR then DOLLAR :: GetSubstitution matched before after r'
            else if N.eqb d AMP then matched ++ GetSubstitution matched before after r'
            else if N.eqb d BACKTICK then before ++ GetSubstitution matched before after r'
            else if N.eqb d APOSTROPHE then after ++ GetSubstitution matched before after r'
            else c :: GetSubstitution matched before after r
        | [] => [c]
        end
      else c :: GetSubstitution matched before after r
  end.

(** [s.replace(p, repl)] for a string pattern [p]: only the first
    occurrence is replaced. *)
Definition replace (s p repl : jsstring) : jsstring :=
  match search s p 0 with
  | None => s
  | Some pos =>
      let before := firstn pos s in
      let after := skipn (pos + length p) s in
      before ++ GetSubstitution p before after repl ++ after
  end.

(** [s.replaceAll(p, repl)] for a non-empty string pattern, with a
    replacement taken literally: what substituting at every occurrence
    means.  The fuel is the length of [s]. *)
Fixpoint replaceAll_fuel (fuel : nat) (s p repl : jsstring) : jsstring :=
  match fuel with
  | O => s
  | S fuel' =>
      match s with
      | [] => []
      | c :: s' =>
          if startsWith s p
          then repl ++ replaceAll_fuel fuel' (skipn (length p) s) p repl
          else c :: replaceAll_fuel fuel' s' p repl
      end
  end.

Definition replaceAll (s p repl : jsstring) : jsstring :=
  replaceAll_fuel (length s) s p repl.

(** Decimal digits of a number, as [String(n)] prints a non-negative
    integer. *)
Definition of_N (n : N) : jsstring :=
  lit (NilZero.string_of_uint (N.to_uint n)).

End JS.
Export JS.

(* ================================================================== *)
(** * JavaScript values and JSON.parse *)
(* ================================================================== *)

(** The values [JSON.parse] produces, and [undefined].  A number is kept
    as the decimal it was written as, [mantissa * 10 ^ exponent]. *)
Inductive jsval : Type :=
| JUndefined
| JNull
| JBool (b : bool)
| JNum (mantissa exponent : Z)
| JStr (s : jsstring)
| JArr (elems : list jsval)
| JObj (props : list (jsstring * jsval)).

(** What evaluating an expression gives: a value, or a thrown exception. *)
Inductive error : Type :=
| TypeError                     (* raised by the language itself *)
| SyntaxError                   (* raised by JSON.parse *)
| Error (message : jsstring)    (* new Error(message) *)
| Rejected (reason : jsstring). (* a rejected promise of the platform *)

Inductive completion (A : Type) : Type :=
| Normal (a : A)
| Throw (e : error).
Arguments Normal {A} a.
Arguments Throw {A} e.

Module Value.

(** ToBoolean.  A number is falsy when it is zero as a double, that is
    when the decimal is zero or rounds to zero: at most [2 ^ -1075] in
    magnitude. *)
Definition ToBoolean (v : jsval) : bool :=
  match v with
  | JUndefined | JNull => false
  | JBool b => b
  | JNum m e =>
      if (m =? 0)%Z then false
      else if (0 <=? e)%Z then true
      else (10 ^ (- e) <? Z.abs m * 2 ^ 1075)%Z
  | JStr s => negb (eqb s [])
  | JArr _ | JObj _ => true
  end.

Fixpoint lookup (props : list (jsstring * jsval)) (key : jsstring) : option jsval :=
  match props with
  | [] => None
  | (k, v) :: rest => if eqb k key then Some v else lookup rest key
  end.

(** CreateDataProperty on an ordinary object: a key that is already there
    keeps its place and takes the new value. *)
Fixpoint set_prop (props : list (jsstring * jsval)) (key : jsstring) (v : jsval)
  : list (jsstring * jsval) :=
  match props with
  | [] => [(key, v)]
  | (k, w) :: rest =>
      if eqb k key then (k, v) :: rest else (k, w) :: set_prop rest key v
  end.

Definition is_digit (c : codeunit) : bool := ((48 <=? c) && (c <=? 57))%N.

Fixpoint digits_value (acc : nat) (s : jsstring) : nat :=
  match s with
  | [] => acc
  | c :: s' => digits_value (10 * acc + N.to_nat (c - 48)) s'
  end.

(** A canonical array index: decimal digits without a leading zero. *)
Definition array_index (key : jsstring) : option nat :=
  match key with
  | [] => None
  | c :: rest =>
      if forallb is_digit key && (negb (N.eqb c 48) || eqb rest [])
      then Some (digits_value 0 key)
      else None
  end.

(** [v[key]] and [v.key] on the own properties of a parsed value.
    Inherited built-in methods are left out: the services only read
    [choices], [delta], [content], [type], [text], [candidates], [parts]
    and the index [0], none of which a prototype defines. *)
Definition Get (v : jsval) (key : jsstring) : completion jsval :=
  match v with
  | JUndefined | JNull => Throw TypeError
  | JBool _ | JNum _ _ => Normal JUndefined
  | JStr s =>
      if eqb key (lit "length") then Normal (JNum (Z.of_nat (length s)) 0)
      else match array_index key with
           | Some i => match nth_error s i with
                       | Some c => Normal (JStr [c])
                       | None => Normal JUndefined
                       end
           | None => Normal JUndefined
           end
  | JArr elems =>
      if eqb key (lit "length") then Normal (JNum (Z.of_nat (length elems)) 0)
      else match array_index key with
           | Some i => match nth_error elems i with
                       | Some x => Normal x
                       | None => Normal JUndefined
                       end
           | None => Normal JUndefined
           end
  | JObj props =>
      match lookup props key with
      | Some x => Normal x
      | None => Normal JUndefined
      end
  end.

(** Optional chaining [v?.key] and [v?.[key]]. *)
Definition GetOpt (v : jsval) (key : jsstring) : jsval :=
  match Get v key with
  | Normal x => x
  | Throw _ => JUndefined
  end.

(** [v === 'literal'] *)
Definition is_string (v : jsval) (s : jsstring) : bool :=
  match v with
  | JStr t => eqb t s
  | _ => false
  end.

End Value.

Module JSON.

Import Value.

Definition is_ws (c : codeunit) : bool :=
  ((c =? 32) || (c =? 9) || (c =? 10) || (c =? 13))%N.

Fixpoint skip_ws (s : jsstring) : jsstring :=
  match s with
  | c :: s' => if is_ws c then skip_ws s' else s
  | [] => []
  end.

Definition hex_digit (c : codeunit) : option N :=
  (if (48 <=? c) && (c <=? 57) then Some (c - 48)
   else if (65 <=? c) && (c <=? 70) then Some (c - 55)
   else if (97 <=? c) && (c <=? 102) then Some (c - 87)
   else None)%N.

Definition hex4 (a b c d : codeunit) : option codeunit :=
  match hex_digit a, hex_digit b, hex_digit c, hex_digit d with
  | Some x, Some y, Some z, Some w => Some (((x * 16 + y) * 16 + z) * 16 + w)%N
  | _, _, _, _ => None
  end.

(** The escapes of one character. *)
Definition simple_escape (c : codeunit) : option codeunit :=
  (if c =? 34 then Some 34          (* quote *)
   else if c =? 92 then Some 92     (* backslash *)
   else if c =? 47 then Some 47     (* slash *)
   else if c =? 98 then Some 8      (* b *)
   else if c =? 102 then Some 12    (* f *)
   else if c =? 110 then Some 10    (* n *)
   else if c =? 114 then Some 13    (* r *)
   else if c =? 116 then Some 9     (* t *)
   else None)%N.

(** The characters of a string after its opening quote, up to the closing
    one, and the text that follows. *)
Fixpoint string_chars (s : jsstring) : option (jsstring * jsstring) :=
  match s with
  | [] => None
  | c :: r =>
      if N.eqb c QUOTE then Some ([], r)
      else if N.eqb c BACKSLASH then
        match r with
        | [] => None
        | e :: r1 =>
            match simple_escape e with
            | Some x =>
                match string_chars r1 with
                | Some (str, rest) => Some (x :: str, rest)
                | None => None
                end
            | None =>
                if N.eqb e 117 then
                  match r1 with
                  | h1 :: h2 :: h3 :: h4 :: r2 =>
                      match hex4 h1 h2 h3 h4 with
                      | Some x =>
                          match string_chars r2 with
                          | Some (str, rest) => Some (x :: str, rest)
                          | None => None
                          end
                      | None => None
                      end
                  | _ => None
                  end
                else None
            end
        end
      else if (c <? 32)%N then None
      else match string_chars r with
           | Some (str, rest) => Some (c :: str, rest)
           | None => None
           end
  end.

Fixpoint take_digits (s : jsstring) : jsstring * jsstring :=
  match s with
  | c :: r =>
      if is_digit c then let (ds, rest) := take_digits r in (c :: ds, rest)
      else ([], s)
  | [] => ([], [])
  end.

Definition digits_Z (ds : jsstring) : Z :=
  fold_left (fun acc c => (10 * acc + Z.of_N (c - 48))%Z) ds 0%Z.

(** The integer part: a single zero, or digits that start with a non-zero
    one. *)
Definition int_part (s : jsstring) : option (jsstring * jsstring) :=
  match s with
  | c :: r =>
      if N.eqb c 48 then Some ([c], r)
      else if is_digit c then Some (take_digits s)
      else None
  | [] => None
  end.

Definition frac_part (s : jsstring) : option (jsstring * jsstring) :=
  match s with
  | c :: r =>
      if N.eqb c 46 then
        match take_digits r with
        | ([], _) => None
        | (ds, rest) => Some (ds, rest)
        end
      else Some ([], s)
  | [] => Some ([], [])
  end.

Definition exp_digits (negative : bool) (s : jsstring) : option (Z * jsstring) :=
  match take_digits s with
  | ([], _) => None
  | (ds, rest) => Some (if negative then (- digits_Z ds)%Z else digits_Z ds, rest)
  end.

Definition exp_part (s : jsstring) : option (Z * jsstring) :=
  match s with
  | c :: r =>
      if N.eqb c 101 || N.eqb c 69 then
        match r with
        | sg :: r' =>
            if N.eqb sg 45 then exp_digits true r'
            else if N.eqb sg 43 then exp_digits false r'
            else exp_digits false r
        | [] => None
        end
      else Some (0%Z, s)
  | [] => Some (0%Z, [])
  end.

Definition number (s : jsstring) : option (jsval * jsstring) :=
  let (negative, s1) :=
    match s with
    | c :: r => if N.eqb c 45 then (true, r) else (false, s)
    | [] => (false, s)
    end in
  match int_part s1 with
  | None => None
  | Some (ints, s2) =>
      match frac_part s2 with
      | None => None
      | Some (fracs, s3) =>
          match exp_part s3 with
          | None => None
          | Some (e, s4) =>
              let m := digits_Z (ints ++ fracs) in
              Some (JNum (if negative then - m else m)
                         (e - Z.of_nat (length fracs)), s4)
          end
      end
  end.

(** The JSON grammar.  Every call spends one unit of fuel and the text
    only gets shorter, so twice the length of the text is enough. *)
Fixpoint value (fuel : nat) (s : jsstring) : option (jsval * jsstring) :=
  match fuel with
  | O => None
  | S fuel' =>
      match skip_ws s with
      | [] => None
      | c :: r =>
          if N.eqb c LBRACE then
            match skip_ws r with
            | c' :: r' =>
                if N.eqb c' RBRACE then Some (JObj [], r')
                else members fuel' [] (c' :: r')
            | [] => None
            end
          else if N.eqb c 91 then
            match skip_ws r with
            | c' :: r' =>
                if N.eqb c' 93 then Some (JArr [], r')
                else elements fuel' [] (c' :: r')
            | [] => None
            end
          else if N.eqb c QUOTE then
            match string_chars r with
            | Some (str, rest) => Some (JStr str, rest)
            | None => None
            end
          else if startsWith (c :: r) (lit "true") then Some (JBool true, skipn 4 (c :: r))
          else if startsWith (c :: r) (lit "false") then Some (JBool false, skipn 5 (c :: r))
          else if startsWith (c :: r) (lit "null") then Some (JNull, skipn 4 (c :: r))
          else number (c :: r)
      end
  end
with elements (fuel : nat) (acc : list jsval) (s : jsstring)
  : option (jsval * jsstring) :=
  match fuel with
  | O => None
  | S fuel' =>
      match value fuel' s with
      | None => None
      | Some (v, r) =>
          match skip_ws r with
          | c :: r' =>
              if N.eqb c 44 then elements fuel' (acc ++ [v]) r'
              else if N.eqb c 93 then Some (JArr (acc ++ [v]), r')
              else None
          | [] => None
          end
      end
  end
with members (fuel : nat) (acc : list (jsstring * jsval)) (s : jsstring)
  : option (jsval * jsstring) :=
  match fuel with
  | O => None
  | S fuel' =>
      match skip_ws s with
      | c :: r =>
          if N.eqb c QUOTE then
            match string_chars r with
            | Some (key, r1) =>
                match skip_ws r1 with
                | c1 :: r2 =>
                    if N.eqb c1 58 then
                      match value fuel' r2 with
                      | Some (v, r3) =>
                          match skip_ws r3 with
                          | c3 :: r4 =>
                              if N.eqb c3 44
                              then members fuel' (set_prop acc key v) r4
                              else if N.eqb c3 RBRACE
                              then Some (JObj (set_prop acc key v), r4)
                              else None
                          | [] => None
                          end
                      | None => None
                      end
                    else None
                | [] => None
                end
            | None => None
            end
          else None
      | [] => None
      end
  end.

(** [JSON.parse(text)]: the value, or a SyntaxError. *)
Definition parse (text : jsstring) : completion jsval :=
  match value (2 * length text + 2) text with
  | Some (v, rest) =>
      match skip_ws rest with
      | [] => Normal v
      | _ :: _ => Throw SyntaxError
      end
  | None => Throw SyntaxError
  end.

End JSON.

(* ================================================================== *)
(** * TextDecoder in streaming mode *)
(* ================================================================== *)

(** [new TextDecoder()] decodes UTF-8 and, called with [{stream: true}],
    keeps between calls the bytes of a character that is not complete
    yet.  This is the decoder of the Encoding standard: one byte at a
    time, malformed input replaced by U+FFFD, a leading byte order mark
    dropped. *)
Module TextDecoder.

Record utf8 : Type := {
  code_point : N;
  bytes_seen : N;
  bytes_needed : N;
  lower_boundary : N;
  upper_boundary : N
}.

Definition utf8_init : utf8 :=
  {| code_point := 0; bytes_seen := 0; bytes_needed := 0;
     lower_boundary := 128; upper_boundary := 191 |}.

Definition awaiting (cp needed lower upper : N) : utf8 :=
  {| code_point := cp; bytes_seen := 0; bytes_needed := needed;
     lower_boundary := lower; upper_boundary := upper |}.

(** A byte met when no character is pending. *)
Definition lead (b : N) : utf8 * list N :=
  (if b <=? 127 then (utf8_init, [b])
   else if (194 <=? b) && (b <=? 223)
     then (awaiting (N.land b 31) 1 128 191, [])
   else if (224 <=? b) && (b <=? 239)
     then (awaiting (N.land b 15) 2
             (if b =? 224 then 160 else 128)
             (if b =? 237 then 159 else 191), [])
   else if (240 <=? b) && (b <=? 244)
     then (awaiting (N.land b 7) 3
             (if b =? 240 then 144 else 128)
             (if b =? 244 then 143 else 191), [])
   else (utf8_init, [65533]))%N.

(** The handler of the UTF-8 decoder: the new state and the code points
    that come out. *)
Definition handler (st : utf8) (b : N) : utf8 * list N :=
  (if bytes_needed st =? 0 then lead b
   else if (b <? lower_boundary st) || (upper_boundary st <? b) then
     let (st', out) := lead b in (st', 65533 :: out)
   else
     let cp := N.lor (N.shiftl (code_point st) 6) (N.land b 63) in
     let seen := bytes_seen st + 1 in
     if seen =? bytes_needed st then (utf8_init, [cp])
     else ({| code_point := cp; bytes_seen := seen;
              bytes_needed := bytes_needed st;
              lower_boundary := 128; upper_boundary := 191 |}, []))%N.

(** A code point as UTF-16 code units. *)
Definition code_units (cp : N) : jsstring :=
  (if cp <? 65536 then [cp]
   else [55296 + (cp - 65536) / 1024; 56320 + (cp - 65536) mod 1024])%N.

Record state : Type := {
  decoder : utf8;
  BOM_seen : bool
}.

(** A fresh [new TextDecoder()]. *)
Definition init : state := {| decoder := utf8_init; BOM_seen := false |}.

(** Serializing the decoder's output: the first code point is dropped
    when it is the byte order mark. *)
Fixpoint serialize (seen : bool) (cps : list N) : bool * jsstring :=
  match cps with
  | [] => (seen, [])
  | cp :: rest =>
      if negb seen && N.eqb cp 65279 then serialize true rest
      else let (seen', out) := serialize true rest in
           (seen', code_units cp ++ out)
  end.

Definition decode_byte (st : state) (b : byte) : state * jsstring :=
  let (u, cps) := handler (decoder st) (Byte.to_N b) in
  let (seen, out) := serialize (BOM_seen st) cps in
  ({| decoder := u; BOM_seen := seen |}, out).

(** [decoder.decode(value, { stream: true })] *)
Fixpoint decode (st : state) (value : list byte) : state * jsstring :=
  match value with
  | [] => (st, [])
  | b :: rest =>
      let (st1, t1) := decode_byte st b in
      let (st2, t2) := decode st1 rest in
      (st2, t1 ++ t2)
  end.

(** The bytes of a text of the ASCII range. *)
Definition ascii_bytes (s : jsstring) : list byte :=
  map (fun c => match Byte.of_N c with Some b => b | None => x00 end) s.

End TextDecoder.

(* ================================================================== *)
(** * The network and generator runs *)
(* ================================================================== *)

Module Net.

(** The arguments of a [fetch] call.  The body is kept as the object
    handed to [JSON.stringify]. *)
Record Request : Type := {
  url : jsstring;
  method : jsstring;
  headers : list (jsstring * jsstring);
  body : option jsval
}.

(** How a response body ends: [reader.read()] reports [done], or its
    promise is rejected because the connection dropped. *)
Inductive stream_end : Type :=
| Done
| ReadFailed (reason : jsstring).

Record Body : Type := {
  chunks : list (list byte);
  last : stream_end
}.

Record Response : Type := {
  ok : bool;
  status : N;
  text : completion jsstring;     (* await res.text() *)
  stream : option Body            (* res.body, [None] for null *)
}.

(** The network: what [await fetch(request)] gives, [Throw] when the
    promise is rejected. *)
Definition network := Request -> completion Response.

(** A computation that calls the network: the requests it made, in
    order, and its result. *)
Definition io (A : Type) : Type := network -> list Request * A.

Definition ret {A : Type} (a : A) : io A := fun _ => ([], a).

Definition bind {A B : Type} (m : io A) (k : A -> io B) : io B :=
  fun net =>
    let (calls1, a) := m net in
    let (calls2, b) := k a net in
    (calls1 ++ calls2, b).

Definition fetch (req : Request) : io (completion Response) :=
  fun net => ([req], net req).

End Net.
Import Net.

Notation "x <- m ;; k" := (Net.bind m (fun x => k))
  (at level 61, m at next level, right associativity).

(** How a generator run ends: it completes ([return], or the end of the
    body), or it throws. *)
Inductive ending : Type :=
| Finished
| Threw (e : error).

(** What the consumer of an async generator sees: the values yielded, in
    order, then the end. *)
Record run : Type := {
  yielded : list jsval;
  ended : ending
}.

Definition thrown (e : error) : run := {| yielded := []; ended := Threw e |}.

(** The run that yields [ys] and then goes on as [r]. *)
Definition after (ys : list jsval) (r : run) : run :=
  {| yielded := ys ++ yielded r; ended := ended r |}.

(** The run of a read loop that has no chunk left. *)
Definition at_end (fin : stream_end) : run :=
  match fin with
  | Done => {| yielded := []; ended := Finished |}
  | ReadFailed reason => thrown (Rejected reason)
  end.

(* ================================================================== *)
(** * llm.ts *)
(* ================================================================== *)

Module LLM.

Record SummaryOptions : Type := {
  language : jsstring;
  model : jsstring;
  customPrompt : option jsstring;   (* [None] when the field is absent *)
  apiKey : jsstring
}.

Definition nl : jsstring := [NEWLINE].

Definition SYSTEM_PROMPT : jsstring :=
  nl ++ lit "You are a professional content distiller. Your goal is to summarize the following text into 3 sections:"
  ++ nl ++ lit "1. One-sentence TL;DR."
  ++ nl ++ lit "2. Key Takeaways (bullet points)."
  ++ nl ++ lit "3. Action Items or Conclusion."
  ++ nl
  ++ nl ++ lit "IMPORTANT: The article may be in any language, but you MUST provide the summary in {{LANGUAGE}}."
  ++ nl.

Definition PLACEHOLDER : jsstring := lit "{{LANGUAGE}}".

(** [a || b] on an optional string: [undefined] and the empty string are
    falsy. *)
Definition or_else (a : option jsstring) (b : jsstring) : jsstring :=
  match a with
  | Some s => if eqb s [] then b else s
  | None => b
  end.

Definition constructPrompt (options : SummaryOptions) (content : jsstring) : jsstring :=
  let promptTemplate := or_else (customPrompt options) SYSTEM_PROMPT in
  let systemInstruction := replace promptTemplate PLACEHOLDER (language options) in
  systemInstruction ++ nl ++ nl ++ lit "---" ++ nl ++ nl ++ content.

End LLM.
Import LLM.

(** [a || b] on strings. *)
Definition or_str (a b : jsstring) : jsstring :=
  if eqb a [] then b else a.

(** What a service does with a response before it starts to read it, and
    then [reading] the body. *)
Definition respond (name : jsstring)
    (reading : list (list byte) -> stream_end -> run)
    (res : completion Response) : run :=
  match res with
  | Throw e => thrown e                     (* await fetch(...) rejected *)
  | Normal res =>
      if negb (ok res) then
        match Net.text res with
        | Throw e => thrown e
        | Normal err =>
            thrown (Error (name ++ lit " API Error: " ++ of_N (status res)
                           ++ lit " " ++ err))
        end
      else
        match stream res with
        | None => thrown (Error (lit "No response body"))
        | Some b => reading (chunks b) (last b)
        end
  end.

(* ================================================================== *)
(** * Arrays of parsed values, and sorting *)
(* ================================================================== *)

Module JSArray.

(** [a.localeCompare(b)]: negative, zero or positive.  The order is the
    collation of the browser's locale, which the code does not fix: it is
    an argument of what follows. *)
Definition collation : Type := jsstring -> jsstring -> Z.

(** [v.map(f)] for a parsed value [v]: only an array has the method. *)
Fixpoint map_values (f : jsval -> completion jsval) (elems : list jsval)
  : completion (list jsval) :=
  match elems with
  | [] => Normal []
  | x :: rest =>
      match f x with
      | Throw e => Throw e
      | Normal y =>
          match map_values f rest with
          | Throw e => Throw e
          | Normal ys => Normal (y :: ys)
          end
      end
  end.

Definition map (v : jsval) (f : jsval -> completion jsval)
  : completion (list jsval) :=
  match v with
  | JArr elems => map_values f elems
  | _ => Throw TypeError
  end.

(** [a.filter(f)] *)
Fixpoint filter (f : jsval -> completion bool) (a : list jsval)
  : completion (list jsval) :=
  match a with
  | [] => Normal []
  | x :: rest =>
      match f x with
      | Throw e => Throw e
      | Normal keep =>
          match filter f rest with
          | Throw e => Throw e
          | Normal ys => Normal (if keep then x :: ys else ys)
          end
      end
  end.

(** Insertion of [x] into a list that [compare] has put in order: before
    the first element that [x] has to come before. *)
Fixpoint insert (compare : jsstring -> jsstring -> Z) (x : jsstring)
    (sorted : list jsstring) : list jsstring :=
  match sorted with
  | [] => [x]
  | y :: rest =>
      if (compare x y <? 0)%Z then x :: y :: rest
      else y :: insert compare x rest
  end.

(** The stable sort of strings by a comparator.  [Array.prototype.sort]
    is stable, so for a comparator that is a consistent order, as a
    collation is, its result is this one whatever algorithm the engine
    runs. *)
Definition sort_strings (compare : jsstring -> jsstring -> Z)
    (a : list jsstring) : list jsstring :=
  fold_left (fun sorted x => insert compare x sorted) a [].

Definition is_undefined (v : jsval) : bool :=
  match v with
  | JUndefined => true
  | _ => false
  end.

(** The strings of a list of values, when all of them are strings. *)
Fixpoint strings (a : list jsval) : option (list jsstring) :=
  match a with
  | [] => Some []
  | JStr s :: rest => option_map (cons s) (strings rest)
  | _ :: _ => None
  end.

(** [a.sort((a, b) => b.localeCompare(a))].  The [undefined] elements go
    to the end and are not compared.  The comparator throws when its
    receiver is not a string; which calls an engine makes then is its own
    business, and the result is [None]: not determined by the code. *)
Definition sort_descending (localeCompare : collation) (a : list jsval)
  : option (list jsval) :=
  let defined := List.filter (fun v => negb (is_undefined v)) a in
  let undefineds := List.filter is_undefined a in
  match strings defined with
  | Some ss =>
      Some (List.map JStr (sort_strings (fun x y => localeCompare y x) ss)
            ++ undefineds)
  | None => None
  end.

End JSArray.

(** [await res.json()] *)
Definition json (res : Response) : completion jsval :=
  match Net.text res with
  | Throw e => Throw e
  | Normal t => JSON.parse t
  end.

(** The end of the [getModels] methods: the [try] block gave a list to
    sort, or threw and the [catch] block returns the empty list. *)
Definition sorted_or_empty (localeCompare : JSArray.collation)
    (ids : completion (list jsval)) : option (list jsval) :=
  match ids with
  | Throw _ => Some []
  | Normal a => JSArray.sort_descending localeCompare a
  end.

(* ================================================================== *)
(** * The two event-stream services *)
(* ================================================================== *)

(** openai.ts and anthropic.ts run the same read loop; they differ in
    what the [for (const line of lines)] loop does.  [for_lines] gives
    the values it yields and whether it executed [return]. *)
Section LineLoop.

Variable for_lines : list jsstring -> list jsval * bool.

(** One turn of [while (true)] after a successful read: the values
    yielded, whether the generator returned, and the new buffer. *)
Definition feed (buffer text : jsstring) : list jsval * bool * jsstring :=
  let buffer := buffer ++ text in
  let (lines, final) := pop (split NEWLINE buffer) in
  let buffer := or_empty final in
  (for_lines lines, buffer).

Fixpoint read_lines (decoder : TextDecoder.state) (buffer : jsstring)
    (chunks : list (list byte)) (fin : stream_end) : run :=
  match chunks with
  | [] => at_end fin                                      (* if (done) break *)
  | value :: more =>
      let (decoder', text) := TextDecoder.decode decoder value in
      match feed buffer text with
      | (ys, true, _) => {| yielded := ys; ended := Finished |}
      | (ys, false, buffer') => after ys (read_lines decoder' buffer' more fin)
      end
  end.

End LineLoop.

Module OpenAI.

Import Value.

Definition name : jsstring := lit "OpenAI".

Definition models_request (key : jsstring) : Request :=
  {| url := lit "https://api.openai.com/v1/models";
     method := lit "GET";
     headers := [(lit "Authorization", lit "Bearer " ++ key)];
     body := None |}.

Definition validateKey (key : jsstring) : io bool :=
  if negb (startsWith key (lit "sk-")) then ret false
  else
    res <- fetch (models_request key) ;;
    ret match res with
        | Normal r => ok r
        | Throw _ => false
        end.

Definition request (text : jsstring) (options : SummaryOptions) : Request :=
  let prompt := constructPrompt options text in
  {| url := lit "https://api.openai.com/v1/chat/completions";
     method := lit "POST";
     headers := [(lit "Content-Type", lit "application/json");
                 (lit "Authorization", lit "Bearer " ++ apiKey options)];
     body := Some (JObj
       [(lit "model", JStr (or_str (model options) (lit "gpt-4o-mini")));
        (lit "messages", JArr [JObj [(lit "role", JStr (lit "user"));
                                     (lit "content", JStr prompt)]]);
        (lit "stream", JBool true)]) |}.

(** The [try] block of a data line: what it yields.  An exception is
    caught and logged. *)
Definition data_line (payload : jsstring) : list jsval :=
  match JSON.parse payload with
  | Throw _ => []
  | Normal json =>
      match Get json (lit "choices") with
      | Throw _ => []
      | Normal choices =>
          match Get choices (lit "0") with
          | Throw _ => []
          | Normal first =>
              let content := GetOpt (GetOpt first (lit "delta")) (lit "content") in
              if ToBoolean content then [content] else []
          end
      end
  end.

Fixpoint for_lines (lines : list jsstring) : list jsval * bool :=
  match lines with
  | [] => ([], false)
  | line :: rest =>
      if eqb (trim line) [] then for_lines rest
      else if eqb (trim line) (lit "data: [DONE]") then ([], true)
      else if startsWith line (lit "data: ") then
        let (ys, returned) := for_lines rest in
        (data_line (slice line 6) ++ ys, returned)
      else for_lines rest
  end.

Definition read_loop := read_lines for_lines.

Definition summarize (text : jsstring) (options : SummaryOptions) : io run :=
  res <- fetch (request text options) ;;
  ret (respond name (read_loop TextDecoder.init []) res).

(** The callback of [filter] in [getModels] on a parsed value: a string
    is tested; an array has an [includes] method of its own, which looks
    for the element ['gpt'], but no [startsWith]; any other value has no
    [includes]. *)
Definition relevant (id : jsval) : completion bool :=
  match id with
  | JStr s =>
      Normal (includes s (lit "gpt") || startsWith s (lit "o1")
              || startsWith s (lit "o3"))
  | JArr elems =>
      if existsb (fun e => is_string e (lit "gpt")) elems then Normal true
      else Throw TypeError
  | _ => Throw TypeError
  end.

(** The ids the [try] block of [getModels] is about to sort. *)
Definition listed (res : completion Response) : completion (list jsval) :=
  match res with
  | Throw e => Throw e
  | Normal res =>
      if negb (ok res) then Normal []
      else
        match json res with
        | Throw e => Throw e
        | Normal data =>
            match Get data (lit "data") with
            | Throw e => Throw e
            | Normal models =>
                match JSArray.map models (fun m => Get m (lit "id")) with
                | Throw e => Throw e
                | Normal ids => JSArray.filter relevant ids
                end
            end
        end
  end.

Definition getModels (localeCompare : JSArray.collation) (apiKey : jsstring)
  : io (option (list jsval)) :=
  res <- fetch (models_request apiKey) ;;
  ret (sorted_or_empty localeCompare (listed res)).

End OpenAI.

Module Anthropic.

Import Value.

Definition name : jsstring := lit "Anthropic".

Definition validateKey (key : jsstring) : io bool :=
  ret (startsWith key (lit "sk-ant-")).

Definition request (text : jsstring) (options : SummaryOptions) : Request :=
  let prompt := constructPrompt options text in
  {| url := lit "https://api.anthropic.com/v1/messages";
     method := lit "POST";
     headers := [(lit "x-api-key", apiKey options);
                 (lit "anthropic-version", lit "2023-06-01");
                 (lit "content-type", lit "application/json");
                 (lit "anthropic-dangerous-direct-browser-access", lit "true")];
     body := Some (JObj
       [(lit "model", JStr (or_str (model options) (lit "claude-3-5-sonnet-20240620")));
        (lit "max_tokens", JNum 1024 0);
        (lit "messages", JArr [JObj [(lit "role", JStr (lit "user"));
                                     (lit "content", JStr prompt)]]);
        (lit "stream", JBool true)]) |}.

Definition data_line (dataStr : jsstring) : list jsval :=
  match JSON.parse dataStr with
  | Throw _ => []
  | Normal event =>
      match Get event (lit "type") with
      | Throw _ => []
      | Normal type =>
          let delta := GetOpt event (lit "delta") in
          if is_string type (lit "content_block_delta")
             && is_string (GetOpt delta (lit "type")) (lit "text_delta")
          then match Get delta (lit "text") with
               | Normal t => [t]
               | Throw _ => []
               end
          else []
      end
  end.

Fixpoint for_lines (lines : list jsstring) : list jsval * bool :=
  match lines with
  | [] => ([], false)
  | line :: rest =>
      if eqb (trim line) [] then for_lines rest
      else if startsWith line (lit "event: ") then for_lines rest
      else if startsWith line (lit "data: ") then
        let dataStr := slice line 6 in
        if eqb dataStr (lit "[DONE]") then ([], true)
        else
          let (ys, returned) := for_lines rest in
          (data_line dataStr ++ ys, returned)
      else for_lines rest
  end.

Definition read_loop := read_lines for_lines.

Definition summarize (text : jsstring) (options : SummaryOptions) : io run :=
  res <- fetch (request text options) ;;
  ret (respond name (read_loop TextDecoder.init []) res).

Definition models_request (apiKey : jsstring) : Request :=
  {| url := lit "https://api.anthropic.com/v1/models";
     method := lit "GET";
     headers := [(lit "x-api-key", apiKey);
                 (lit "anthropic-version", lit "2023-06-01");
                 (lit "anthropic-dangerous-direct-browser-access", lit "true")];
     body := None |}.

(** The ids the [try] block of [getModels] is about to sort. *)
Definition listed (res : completion Response) : completion (list jsval) :=
  match res with
  | Throw e => Throw e
  | Normal res =>
      if negb (ok res) then Normal []
      else
        match json res with
        | Throw e => Throw e
        | Normal data =>
            match Get data (lit "data") with
            | Throw e => Throw e
            | Normal models => JSArray.map models (fun m => Get m (lit "id"))
            end
        end
  end.

Definition getModels (localeCompare : JSArray.collation) (apiKey : jsstring)
  : io (option (list jsval)) :=
  res <- fetch (models_request apiKey) ;;
  ret (sorted_or_empty localeCompare (listed res)).

End Anthropic.

(* ================================================================== *)
(** * gemini.ts *)
(* ================================================================== *)

Module Gemini.

Import Value.

Definition name : jsstring := lit "Gemini".

Definition validateKey (key : jsstring) : io bool :=
  ret (10 <? length key).

Definition request (text : jsstring) (options : SummaryOptions) : Request :=
  let prompt := constructPrompt options text in
  let model := or_str (model options) (lit "gemini-1.5-pro") in
  {| url := lit "https://generativelanguage.googleapis.com/v1beta/models/"
            ++ model ++ lit ":streamGenerateContent?key=" ++ apiKey options;
     method := lit "POST";
     headers := [(lit "Content-Type", lit "application/json")];
     body := Some (JObj
       [(lit "contents",
         JArr [JObj [(lit "parts", JArr [JObj [(lit "text", JStr prompt)]])]])]) |}.

(** [buffer[i - 1] !== '\\'] *)
Definition not_backslash (c : option codeunit) : bool :=
  match c with
  | Some x => negb (N.eqb x BACKSLASH)
  | None => true
  end.

(** The [for (let i = start; i < buffer.length; i++)] loop that looks for
    the closing brace: [Some end], or [None] when [end] is still -1.
    The fuel is [buffer.length - i]. *)
Fixpoint find_end (buffer : jsstring) (fuel i : nat) (braceCount : Z)
    (inString : bool) : option nat :=
  match fuel with
  | O => None
  | S fuel' =>
      match charAt buffer i with
      | None => None
      | Some char =>
          let inString :=
            if N.eqb char QUOTE && not_backslash (charBefore buffer i)
            then negb inString else inString in
          if inString then find_end buffer fuel' (S i) braceCount inString
          else
            let braceCount :=
              if N.eqb char LBRACE then (braceCount + 1)%Z else braceCount in
            if N.eqb char RBRACE then
              let braceCount := (braceCount - 1)%Z in
              if (braceCount =? 0)%Z then Some i
              else find_end buffer fuel' (S i) braceCount inString
            else find_end buffer fuel' (S i) braceCount inString
      end
  end.

(** The [try] block of a complete object: what it yields. *)
Definition object_text (jsonStr : jsstring) : list jsval :=
  match JSON.parse jsonStr with
  | Throw _ => []
  | Normal json =>
      match Get json (lit "candidates") with
      | Throw _ => []
      | Normal candidates =>
          let part :=
            GetOpt (GetOpt (GetOpt (GetOpt candidates (lit "0"))
                                   (lit "content")) (lit "parts")) (lit "0") in
          let text := GetOpt part (lit "text") in
          if ToBoolean text then [text] else []
      end
  end.

(** The [while (cursor < buffer.length)] loop: the values yielded and the
    cursor it stops at.  Every turn that goes on moves the cursor
    forward, so [buffer.length - cursor + 1] turns are enough. *)
Fixpoint scan (buffer : jsstring) (fuel cursor : nat) : list jsval * nat :=
  match fuel with
  | O => ([], cursor)
  | S fuel' =>
      if negb (cursor <? length buffer) then ([], cursor)
      else
        match indexOf buffer LBRACE cursor with
        | None => ([], cursor)
        | Some start =>
            match find_end buffer (length buffer - start) start 0 false with
            | Some e =>
                let jsonStr := substring buffer start (e + 1) in
                let (ys, cursor') := scan buffer fuel' (e + 1) in
                (object_text jsonStr ++ ys, cursor')
            | None => ([], cursor)
            end
        end
  end.

(** One turn of [while (true)] after a successful read: the values
    yielded and the new buffer. *)
Definition feed (buffer text : jsstring) : list jsval * jsstring :=
  let buffer := buffer ++ text in
  let (ys, cursor) := scan buffer (S (length buffer)) 0 in
  (ys, if 0 <? cursor then slice buffer cursor else buffer).

Fixpoint read_loop (decoder : TextDecoder.state) (buffer : jsstring)
    (chunks : list (list byte)) (fin : stream_end) : run :=
  match chunks with
  | [] => at_end fin
  | value :: more =>
      let (decoder', text) := TextDecoder.decode decoder value in
      let (ys, buffer') := feed buffer text in
      after ys (read_loop decoder' buffer' more fin)
  end.

Definition summarize (text : jsstring) (options : SummaryOptions) : io run :=
  res <- fetch (request text options) ;;
  ret (respond name (read_loop TextDecoder.init []) res).

Definition models_request (apiKey : jsstring) : Request :=
  {| url := lit "https://generativelanguage.googleapis.com/v1beta/models?key="
            ++ apiKey;
     method := lit "GET";
     headers := [];
     body := None |}.

(** [m.name.replace('models/', '')]: only a string has the method. *)
Definition short_name (m : jsval) : completion jsval :=
  match Get m (lit "name") with
  | Throw e => Throw e
  | Normal (JStr s) => Normal (JStr (replace s (lit "models/") []))
  | Normal _ => Throw TypeError
  end.

(** The callback of [filter] in [getModels]; the names it gets are
    strings, any other value has no [includes] that finds a string. *)
Definition relevant (id : jsval) : completion bool :=
  match id with
  | JStr s => Normal (includes s (lit "gemini"))
  | JArr elems =>
      Normal (existsb (fun e => is_string e (lit "gemini")) elems)
  | _ => Throw TypeError
  end.

(** The ids the [try] block of [getModels] is about to sort. *)
Definition listed (res : completion Response) : completion (list jsval) :=
  match res with
  | Throw e => Throw e
  | Normal res =>
      if negb (ok res) then Normal []
      else
        match json res with
        | Throw e => Throw e
        | Normal data =>
            match Get data (lit "models") with
            | Throw e => Throw e
            | Normal models =>
                match JSArray.map models short_name with
                | Throw e => Throw e
                | Normal ids => JSArray.filter relevant ids
                end
            end
        end
  end.

Definition getModels (localeCompare : JSArray.collation) (apiKey : jsstring)
  : io (option (list jsval)) :=
  res <- fetch (models_request apiKey) ;;
  ret (sorted_or_empty localeCompare (listed res)).

End Gemini.

(** Responses used in the examples: a successful one that streams the
    given chunks. *)
Definition streaming (chunks : list (list byte)) : Response :=
  {| ok := true; status := 200; text := Normal [];
     stream := Some {| chunks := chunks; last := Done |} |}.

Definition bytes_of (s : jsstring) : list byte := TextDecoder.ascii_bytes s.

Definition spec_payload_A : jsstring :=
  dq "data: {'choices':[{'delta':{'content':'Hello'}}]}" ++ [NEWLINE; NEWLINE]
  ++ lit "data: [DONE]" ++ [NEWLINE; NEWLINE].

Definition spec_payload_C : jsstring :=
  dq "{'candidates':[{'content':{'parts':[{'text':'a { b } c'}]}}]}".

(* ================================================================== *)
(** * The side panel: choosing and refreshing models *)
(* ================================================================== *)

Module App.

(** The names every object literal inherits from [Object.prototype]. *)
Definition Object_prototype_names : list jsstring :=
  [lit "constructor"; lit "__proto__"; lit "hasOwnProperty";
   lit "isPrototypeOf"; lit "propertyIsEnumerable"; lit "toLocaleString";
   lit "toString"; lit "valueOf"; lit "__defineGetter__";
   lit "__defineSetter__"; lit "__lookupGetter__"; lit "__lookupSetter__"].

Definition inherited (key : jsstring) : bool :=
  existsb (eqb key) Object_prototype_names.

(** Low cost / text-first preferences. *)
Definition preferences : list (jsstring * list jsstring) :=
  [(lit "openai", [lit "gpt-4o-mini"; lit "gpt-3.5-turbo"]);
   (lit "anthropic", [lit "claude-3-haiku-20240307"; lit "claude-3-5-haiku-20241022"]);
   (lit "gemini", [lit "gemini-1.5-flash"; lit "gemini-1.5-flash-latest";
                   lit "gemini-1.5-flash-001"])].

Fixpoint own (table : list (jsstring * list jsstring)) (key : jsstring)
  : option (list jsstring) :=
  match table with
  | [] => None
  | (k, v) :: rest => if eqb k key then Some v else own rest key
  end.

(** [preferences[provider] || []], ready for [for ... of]: an own entry,
    the empty list for a name that is not there, and [None] for a name
    inherited from [Object.prototype], whose value is truthy and cannot
    be iterated. *)
Definition preferredList (provider : jsstring) : option (list jsstring) :=
  match own preferences provider with
  | Some l => Some l
  | None => if inherited provider then None else Some []
  end.

Definition goodKeywords : list jsstring :=
  [lit "flash"; lit "mini"; lit "haiku"; lit "turbo"].

(** [models.includes(x)] *)
Definition has (models : list jsstring) (x : jsstring) : bool :=
  existsb (eqb x) models.

Definition pickBestModel (models : list jsstring) (provider : jsstring)
  : completion jsstring :=
  match models with
  | [] => Normal []
  | first :: _ =>
      if eqb provider (lit "chrome") then Normal (lit "gemini-nano")
      else
        match preferredList provider with
        | None => Throw TypeError
        | Some preferredList =>
            (* 1. Try to find a preferred model *)
            match find (has models) preferredList with
            | Some pref => Normal pref
            | None =>
                (* 2. Prefer models containing a keyword *)
                let candidates :=
                  filter (fun m => existsb (includes m) goodKeywords) models in
                match candidates with
                | c :: _ => Normal c
                | [] => Normal first      (* 3. Absolute fallback *)
                end
            end
        end
  end.

(** ** The auto-fetch effects with debounce

    The three effects are the same text up to the provider, its key and
    its timer ref, and share nothing: one provider is modelled at a time.
    Time is counted in milliseconds. *)

Inductive Provider : Type := openai | anthropic | gemini.

Definition id (p : Provider) : jsstring :=
  match p with
  | openai => lit "openai"
  | anthropic => lit "anthropic"
  | gemini => lit "gemini"
  end.

(** The condition under which an effect arms its timer. *)
Definition gate (p : Provider) (key : jsstring) : bool :=
  negb (eqb key []) &&
  match p with
  | openai => startsWith key (lit "sk-")
  | anthropic => startsWith key (lit "sk-ant-")
  | gemini => 10 <? length key
  end.

(** A timeout armed by [setTimeout(() => fetchModels(p, key), 1000)]. *)
Record timeout : Type := {
  due : nat;
  key : jsstring
}.

(** A call [service.getModels(apiKey)] made by [fetchModels]. *)
Record refresh : Type := {
  at_time : nat;
  provider : Provider;
  credential : jsstring
}.

(** [fetchModels(provider, apiKey)] as far as the service is called. *)
Definition fetchModels (now : nat) (p : Provider) (apiKey : jsstring)
  : list refresh :=
  if eqb apiKey [] then []
  else [{| at_time := now; provider := p; credential := apiKey |}].

(** The body of the effect of [p], run at time [now] with the key [k]:
    the cleanup of the previous run and the new run both clear the timer
    the ref holds, then the timer is armed again if the key passes the
    gate. *)
Definition effect (p : Provider) (now : nat) (k : jsstring)
    (current : option timeout) : option timeout :=
  let cleared : option timeout := None in
  if gate p k then Some {| due := now + 1000; key := k |} else cleared.

(** The dependency list of the effect, which holds the key alone: the
    effect runs after the first render, and after a later render only
    when the key is not the key of the render before. *)
Definition changed (previous : option jsstring) (k : jsstring) : bool :=
  match previous with
  | Some k' => negb (eqb k' k)
  | None => true
  end.

(** The timer the ref holds runs once its time has come.  A timer due at
    the very time of a render is taken to have run before it. *)
Definition expire (p : Provider) (now : nat) (current : option timeout)
  : list refresh * option timeout :=
  match current with
  | Some t =>
      if due t <=? now then (fetchModels (due t) p (key t), None)
      else ([], current)
  | None => ([], None)
  end.

(** The calls made while the component is rendered with the keys of
    [edits], each a time and the key of [p] at that time, in order of
    time, and until everything has gone quiet afterwards.  [previous] is
    the key of the render before, if there has been one. *)
Fixpoint renders (p : Provider) (previous : option jsstring)
    (current : option timeout) (edits : list (nat * jsstring))
  : list refresh :=
  match edits with
  | [] =>
      match current with
      | Some t => fetchModels (due t) p (key t)
      | None => []
      end
  | (now, k) :: rest =>
      let (calls, current') := expire p now current in
      calls ++ renders p (Some k)
                 (if changed previous k then effect p now k current'
                  else current')
                 rest
  end.

(** The calls made from the first render on. *)
Definition refreshes (p : Provider) (current : option timeout)
    (edits : list (nat * jsstring)) : list refresh :=
  renders p None current edits.

End App.

(* ================================================================== *)
(** * chrome_ai.ts *)
(* ================================================================== *)

Module ChromeAI.

(** What a call of the Prompt API gives: a result, or a failure, kept as
    the text its [message] prints as (the text [undefined] when the value
    thrown has none). *)
Inductive outcome (A : Type) : Type :=
| Ok (a : A)
| Failed (message : jsstring).
Arguments Ok {A} a.
Arguments Failed {A} message.

(** A session: the chunks the stream of [promptStreaming(prompt)]
    delivers, the failure that ends it if one does, and the failure of
    [destroy()] if it fails. *)
Record Session : Type := {
  chunks : list jsval;
  failure : option jsstring;
  destroy : option jsstring
}.

(** [ai.languageModel]: the field [available] of what [capabilities()]
    resolves to, and what [create(...)] resolves to. *)
Record LanguageModel : Type := {
  available : outcome jsval;
  create : outcome Session
}.

(** [self.ai], with its [languageModel]; [None] when either is missing.
    The service runs in the side panel, where [self] is the window. *)
Definition AI : Type := option LanguageModel.

Inductive Availability : Type := AVAILABLE | API_MISSING | MODEL_NOT_READY.

(** The calls made to the Prompt API. *)
Inductive call : Type :=
| Capabilities
| Create (systemPrompt : jsstring)
| PromptStreaming (prompt : jsstring)
| Destroy.

Definition name : jsstring := lit "Chrome Built-in AI".

Definition validateKey (_key : jsstring) : bool := true.

Definition getAvailability (ai : AI) : Availability :=
  match ai with
  | None => API_MISSING
  | Some languageModel =>
      match available languageModel with
      | Failed _ => API_MISSING
      | Ok a => if Value.is_string a (lit "no") then MODEL_NOT_READY else AVAILABLE
      end
  end.

Definition getModels (ai : AI) : list jsstring :=
  match getAvailability ai with
  | AVAILABLE => [lit "gemini-nano"]
  | _ => []
  end.

Definition DEFAULT_SYSTEM_PROMPT : jsstring :=
  lit "You are a helpful assistant that summarizes web articles. Provide a concise markdown summary with a Title.".

(** [throw new Error(`Chrome AI failed: ${e.message}`)] *)
Definition failed (message : jsstring) : ending :=
  Threw (Error (lit "Chrome AI failed: " ++ message)).

(** The calls made to the Prompt API and the run of the generator. *)
Definition summarize (content : jsstring) (options : SummaryOptions) (ai : AI)
  : list call * run :=
  match ai with
  | None =>
      ([], thrown (Error (lit "Chrome Built-in AI is not available in this browser. Please enable flags.")))
  | Some languageModel =>
      match available languageModel with
      | Failed m => ([Capabilities], {| yielded := []; ended := failed m |})
      | Ok a =>
          if Value.is_string a (lit "no") then
            ([Capabilities],
             {| yielded := [];
                ended := failed (lit "Chrome AI is available but model is not ready.") |})
          else
            let systemPrompt :=
              or_else (customPrompt options) DEFAULT_SYSTEM_PROMPT in
            match create languageModel with
            | Failed m =>
                ([Capabilities; Create systemPrompt],
                 {| yielded := []; ended := failed m |})
            | Ok session =>
                let prompt :=
                  lit "Please summarize the following content:"
                  ++ [NEWLINE; NEWLINE] ++ content in
                match failure session with
                | None =>
                    ([Capabilities; Create systemPrompt; PromptStreaming prompt;
                      Destroy],
                     {| yielded := chunks session;
                        ended := match destroy session with
                                 | None => Finished
                                 | Some m => failed m
                                 end |})
                | Some m =>
                    ([Capabilities; Create systemPrompt; PromptStreaming prompt],
                     {| yielded := chunks session; ended := failed m |})
                end
            end
      end
  end.

End ChromeAI.

(* ================================================================== *)
(** * The side panel: the catalog of models *)
(* ================================================================== *)

Module Catalog.

(** The interface of llm.ts. *)
Record LLMService : Type := {
  name : jsstring;
  summarize : jsstring -> SummaryOptions -> io run;
  validateKey : jsstring -> io bool;
  getModels : jsstring -> io (completion (list jsstring))
}.

(** What [table[key]] is for an object literal [table]: an entry of its
    own, a member inherited from [Object.prototype], or [undefined]. *)
Inductive member (A : Type) : Type :=
| Own (a : A)
| Inherited
| Undefined.
Arguments Own {A} a.
Arguments Inherited {A}.
Arguments Undefined {A}.

Fixpoint own {A : Type} (table : list (jsstring * A)) (key : jsstring)
  : option A :=
  match table with
  | [] => None
  | (k, v) :: rest => if eqb k key then Some v else own rest key
  end.

Definition get {A : Type} (table : list (jsstring * A)) (key : jsstring)
  : member A :=
  match own table key with
  | Some a => Own a
  | None => if App.inherited key then Inherited else Undefined
  end.

(** [{...table, [key]: value}] *)
Fixpoint set {A : Type} (table : list (jsstring * A)) (key : jsstring)
    (value : A) : list (jsstring * A) :=
  match table with
  | [] => [(key, value)]
  | (k, v) :: rest =>
      if eqb k key then (k, value) :: rest else (k, v) :: set rest key value
  end.


Definition DEFAULT_MODELS : list (jsstring * list jsstring) :=
  [(lit "openai", [lit "gpt-4o-mini"; lit "gpt-4o"]);
   (lit "anthropic", [lit "claude-3-5-sonnet-20240620"]);
   (lit "gemini", [lit "gemini-1.5-pro"]);
   (lit "chrome", [lit "gemini-nano"])].

Definition cache : Type := list (jsstring * list jsstring).

(** [currentModels].  For a name inherited from [Object.prototype] both
    branches of the conditional give an inherited member, which is not a
    list. *)
Definition currentModels (cachedModels : cache) (selectedProvider : jsstring)
  : member (list jsstring) :=
  match get cachedModels selectedProvider with
  | Own l =>
      if 0 <? length l then Own l else get DEFAULT_MODELS selectedProvider
  | Inherited => Inherited
  | Undefined => get DEFAULT_MODELS selectedProvider
  end.

(** The effect that keeps the selected model valid: the model selected
    once it has run.  An inherited member has no [includes] to call. *)
Definition ensureValidModel (cachedModels : cache)
    (selectedProvider selectedModel : jsstring) : completion jsstring :=
  match currentModels cachedModels selectedProvider with
  | Own l =>
      match l with
      | first :: _ =>
          if negb (App.has l selectedModel) then Normal first
          else Normal selectedModel
      | [] => Normal selectedModel
      end
  | Inherited => Throw TypeError
  | Undefined => Normal selectedModel
  end.

(** [fetchModels]: the cache and the flag [isFetchingModels] once it
    has run.  A member inherited by [SERVICES] has no [getModels]: the
    call throws, and the [catch] block logs it. *)
Definition fetchModels (services : list (jsstring * LLMService))
    (provider apiKey : jsstring) (cachedModels : cache) (isFetchingModels : bool)
  : io (cache * bool) :=
  if eqb apiKey [] then ret (cachedModels, isFetchingModels)
  else
    match get services provider with
    | Undefined | Inherited => ret (cachedModels, false)
    | Own service =>
        models <- getModels service apiKey ;;
        ret match models with
            | Normal (m :: ms) => (set cachedModels provider (m :: ms), false)
            | Normal [] | Throw _ => (cachedModels, false)
            end
    end.



End Catalog.

(* ================================================================== *)
(** * The side panel: the library of saved articles *)
(* ================================================================== *)

Module Library.

Record SavedArticle : Type := {
  id : jsstring;
  title : jsstring;
  url : jsstring;
  savedAt : jsstring;
  summary : option jsstring
}.

(** The active tab as [chrome.tabs.query] reports it; a field is [None]
    when the tab does not have it. *)
Record Tab : Type := {
  tab_url : option jsstring;
  tab_title : option jsstring
}.

Inductive SaveStatus : Type := idle | saving | saved.

Record State : Type := {
  savedArticles : list SavedArticle;
  saveStatus : SaveStatus;
  errorMsg : jsstring
}.

(** The code units the dot of a regular expression does not match. *)
Definition is_line_terminator (c : codeunit) : bool :=
  ((c =? 10) || (c =? 13) || (c =? 8232) || (c =? 8233))%N.

(** The longest prefix without a line terminator, and what follows. *)
Fixpoint line (s : jsstring) : jsstring * jsstring :=
  match s with
  | [] => ([], [])
  | c :: rest =>
      if is_line_terminator c then ([], s)
      else let (l, r) := line rest in (c :: l, r)
  end.

Fixpoint spaces (s : jsstring) : nat :=
  match s with
  | c :: rest => if is_space c then S (spaces rest) else 0
  | [] => 0
  end.

(** [(.*?)(\n|$)] at the start of [s]: the lazy group takes the code
    units up to the first line terminator, which has to be a line feed
    or the end of the text. *)
Definition rest_of_heading (s : jsstring) : option jsstring :=
  let (l, r) := line s in
  match r with
  | [] => Some l
  | c :: _ => if N.eqb c NEWLINE then Some l else None
  end.

(** [\s+] followed by the rest of the pattern: the greedy repetition
    first takes all the [n] white spaces there are, then gives them back
    one by one, keeping at least one. *)
Fixpoint backtrack (n : nat) (s : jsstring) : option jsstring :=
  match n with
  | O => None
  | S n' =>
      match rest_of_heading (skipn n s) with
      | Some group => Some group
      | None => backtrack n' s
      end
  end.

(** The first group of [summary.match(/^#\s+(.*?)(\n|$)/)], [None] when
    there is no match. *)
Definition heading (summary : jsstring) : option jsstring :=
  match summary with
  | c :: rest => if N.eqb c 35 then backtrack (spaces rest) rest else None
  | [] => None
  end.

(** [titleToSave] *)
Definition titleToSave (tab_title summary : jsstring) : jsstring :=
  if eqb summary [] then tab_title
  else
    match heading summary with
    | Some group => if eqb group [] then tab_title else trim group
    | None => tab_title
    end.

(** A field that is there and not empty. *)
Definition present (field : option jsstring) : option jsstring :=
  match field with
  | Some s => if eqb s [] then None else Some s
  | None => None
  end.

(** [handleSaveToLibrary].  [tabs] is what [chrome.tabs.query] resolves
    to, with its first tab if there is one; [uuid] and [now] are what
    [crypto.randomUUID()] and [new Date().toISOString()] return. *)
Definition handleSaveToLibrary (tabs : completion (option Tab))
    (uuid now summary : jsstring) (state : State) : State :=
  let failed :=
    {| savedArticles := savedArticles state; saveStatus := idle;
       errorMsg := lit "Failed to save link" |} in
  match tabs with
  | Throw _ => failed
  | Normal None => failed
  | Normal (Some tab) =>
      match present (tab_url tab), present (tab_title tab) with
      | Some tab_url, Some tab_title =>
          let newArticle :=
            {| id := uuid;
               title := titleToSave tab_title summary;
               url := tab_url;
               savedAt := now;
               summary := present (Some summary) |} in
          let exists_ :=
            existsb (fun a => eqb (url a) (url newArticle)) (savedArticles state) in
          if exists_ then
            {| savedArticles := savedArticles state; saveStatus := saved;
               errorMsg := [] |}
          else
            {| savedArticles := newArticle :: savedArticles state;
               saveStatus := saved; errorMsg := [] |}
      | _, _ => failed
      end
  end.

(** [handleDeleteArticle] *)
Definition handleDeleteArticle (id_ : jsstring) (state : State) : State :=
  {| savedArticles :=
       List.filter (fun a => negb (eqb (id a) id_)) (savedArticles state);
     saveStatus := saveStatus state;
     errorMsg := errorMsg state |}.

End Library.

(* ================================================================== *)
(** * Vocabulary of the properties *)
(* ================================================================== *)

(** Case analysis on the string flag after the current code unit. *)
Ltac case_inString :=
  match goal with
  | |- context [if ?c then negb ?b else ?b] =>
      destruct (if c then negb b else b)
  end.

(** The scan with all the turns it needs. *)
Definition scan_all (buffer : jsstring) (cursor : nat) : list jsval * nat :=
  Gemini.scan buffer (S (length buffer - cursor)) cursor.

(** The text the decoder makes of all the bytes of a body. *)
Definition decoded (chunks : list (list byte)) : jsstring :=
  snd (TextDecoder.decode TextDecoder.init (concat chunks)).

(** A text without a line terminator. *)
Definition one_line (l : jsstring) : bool := negb (existsb (N.eqb NEWLINE) l).

(** Lines, each followed by its terminator. *)
Definition unlines (lines : list jsstring) : jsstring :=
  concat (map (fun l => l ++ [NEWLINE]) lines).

(** Two data lines of an OpenAI stream, without their terminators. *)
Definition hello_line : jsstring :=
  dq "data: {'choices':[{'delta':{'content':'Hello'}}]}".

Definition world_line : jsstring :=
  dq "data: {'choices':[{'delta':{'content':' world'}}]}".

(** Two objects of a Gemini stream: the text of the first ends with a
    backslash, the text of the second is four closing braces. *)
Definition backslash_object : jsstring :=
  dq "{'candidates':[{'content':{'parts':[{'text':'C:\\'}]}}]}".

Definition braces_object : jsstring :=
  dq "{'candidates':[{'content':{'parts':[{'text':'}}}}'}]}}]}".

Definition backslash_payload : jsstring :=
  lit "[" ++ backslash_object ++ lit "," ++ [NEWLINE] ++ braces_object ++ lit "]".

(** A complete data line without its line terminator. *)
Definition unterminated_line : jsstring := hello_line.

(** A network on which every request is refused. *)
Definition unauthorized : network :=
  fun _ => Normal {| ok := false; status := 401;
                     text := Normal (lit "unauthorized"); stream := None |}.

(** The options of a request. *)
Definition sample_options : SummaryOptions :=
  {| language := lit "en-US"; model := lit "gpt-4o";
     customPrompt := None; apiKey := lit "sk-x" |}.

(** A successful response without a body. *)
Definition no_content : Response :=
  {| ok := true; status := 204; text := Normal []; stream := None |}.

(** The model a chat request names in its body. *)
Definition sent_model (req : Request) : completion jsval :=
  match body req with
  | Some b => Value.Get b (lit "model")
  | None => Normal JUndefined
  end.

(** A custom prompt that names the language twice, as the settings page
    invites to ("Use {{LANGUAGE}} placeholder"). *)
Definition two_placeholders : SummaryOptions :=
  {| language := lit "fr"; model := lit "gpt-4o";
     customPrompt := Some (lit "Answer in {{LANGUAGE}}. Title in {{LANGUAGE}}.");
     apiKey := lit "sk-x" |}.



(** Edits in order of time, each less than the settle delay after the one
    before. *)
Fixpoint within_window (edits : list (nat * jsstring)) : bool :=
  match edits with
  | (t1, _) :: (((t2, _) :: _) as rest) =>
      (t1 <=? t2) && (t2 <? t1 + 1000) && within_window rest
  | _ => true
  end.

(** The timer the ref holds, if any, is not due yet at time [now]. *)
Definition pending_after (now : nat) (current : option App.timeout) : Prop :=
  match current with
  | Some t => now < App.due t
  | None => True
  end.

(** Edits in order of time, each more than the settle delay after the one
    before. *)
Fixpoint spaced_out (edits : list (nat * jsstring)) : bool :=
  match edits with
  | (t1, _) :: (((t2, _) :: _) as rest) =>
      (t1 + 1000 <? t2) && spaced_out rest
  | _ => true
  end.

(** Every entry changes the key: no key is the key of the entry before
    it, the first one is not [previous]. *)
Fixpoint each_changes (previous : option jsstring)
    (edits : list (nat * jsstring)) : bool :=
  match edits with
  | [] => true
  | (_, k) :: rest => App.changed previous k && each_changes (Some k) rest
  end.

(** The refresh an edit leads to when nothing cancels its timer. *)
Definition refresh_of (p : App.Provider) (edit : nat * jsstring)
  : list App.refresh :=
  let (t, k) := edit in
  if App.gate p k
  then [{| App.at_time := t + 1000; App.provider := p; App.credential := k |}]
  else [].

(** A refresh that comes from a timer. *)
Definition from_timer (p : App.Provider) (tm : App.timeout) (r : App.refresh)
  : Prop :=
  App.at_time r = App.due tm /\ App.provider r = p
  /\ App.credential r = App.key tm.

(** A refresh that comes from one of the edits: it is made for the
    provider, 1000 ms after the edit, with the key of the edit, and that
    key passes the gate. *)
Definition from_edit (p : App.Provider) (edits : list (nat * jsstring))
    (r : App.refresh) : Prop :=
  App.provider r = p
  /\ App.gate p (App.credential r) = true
  /\ exists t, In (t, App.credential r) edits /\ App.at_time r = t + 1000.

(** Whether an evaluation threw. *)
Definition throws {A : Type} (c : completion A) : bool :=
  match c with
  | Throw _ => true
  | Normal _ => false
  end.

(** A line that is not the sentinel of the OpenAI stream and carries no
    parsable data: a blank line, a comment, an event name, or a data line
    whose payload is not JSON. *)
Definition openai_noise (l : jsstring) : bool :=
  negb (eqb (trim l) (lit "data: [DONE]"))
  && (negb (startsWith l (lit "data: ")) || throws (JSON.parse (slice l 6))).

(** The same for the Anthropic stream. *)
Definition anthropic_noise (l : jsstring) : bool :=
  eqb (trim l) []
  || startsWith l (lit "event: ")
  || negb (startsWith l (lit "data: "))
  || (negb (eqb (slice l 6) (lit "[DONE]")) && throws (JSON.parse (slice l 6))).

(** A value that counts as true in a condition. *)
Definition truthy (v : jsval) : Prop := Value.ToBoolean v = true.

(** A response that carries no array under [key]: the call failed, the
    status is not a success, the body is not JSON, or the JSON has no
    array there. *)
Definition no_list (key : jsstring) (r : completion Response) : bool :=
  match r with
  | Throw _ => true
  | Normal res =>
      negb (ok res) ||
      match json res with
      | Throw _ => true
      | Normal data =>
          match Value.Get data key with
          | Normal (JArr _) => false
          | _ => true
          end
      end
  end.

(** A collation is an order: it never says of two strings that each
    comes after the other, and what comes no later than a string that
    comes no later than a third comes no later than the third. *)
Definition consistent (localeCompare : JSArray.collation) : Prop :=
  (forall a b, (0 <= localeCompare a b)%Z -> (localeCompare b a <= 0)%Z)
  /\ (forall a b c, (localeCompare a b <= 0)%Z -> (localeCompare b c <= 0)%Z ->
                    (localeCompare a c <= 0)%Z).

(** Strings in descending order of a collation: no string of the list
    comes before one that precedes it in the list. *)
Definition descending (localeCompare : JSArray.collation) (a : list jsstring)
  : Prop :=
  StronglySorted (fun x y => (localeCompare y x <= 0)%Z) a.

(** The order of the code units, a collation to run the examples with. *)
Fixpoint by_code_unit (a b : jsstring) : Z :=
  match a, b with
  | [], [] => 0
  | [], _ :: _ => -1
  | _ :: _, [] => 1
  | x :: a', y :: b' =>
      if (x <? y)%N then -1 else if (y <? x)%N then 1 else by_code_unit a' b'
  end.

(** A successful response whose body is the text [t]. *)
Definition ok_with (t : jsstring) : Response :=
  {| ok := true; status := 200; text := Normal t; stream := None |}.

(** The relevant ids of OpenAI, the short names of Gemini models. *)
Definition openai_relevant (id : jsstring) : bool :=
  includes id (lit "gpt") || startsWith id (lit "o1") || startsWith id (lit "o3").

Definition gemini_short (n : jsstring) : jsstring := replace n (lit "models/") [].

(** The four providers of the application. *)
Definition known_provider (p : jsstring) : bool :=
  existsb (eqb p) [lit "openai"; lit "anthropic"; lit "gemini"; lit "chrome"].

(** The text of the error [summarize] of the on-device service throws
    when the Prompt API is missing. *)
Definition NOT_AVAILABLE : jsstring :=
  lit "Chrome Built-in AI is not available in this browser. Please enable flags.".

(** A service whose [getModels] gives a fixed result, for the
    examples. *)
Definition fixed_service (models : completion (list jsstring))
  : Catalog.LLMService :=
  {| Catalog.name := lit "fixed";
     Catalog.summarize := fun _ _ => ret (thrown TypeError);
     Catalog.validateKey := fun _ => ret true;
     Catalog.getModels := fun _ => ret models |}.

(** A code unit that is not a line terminator. *)
Definition plain (c : codeunit) : bool := negb (Library.is_line_terminator c).

(* ================================================================== *)
(** * Properties *)
(* ================================================================== *)

(** ** The platform models on sample inputs *)

Example parse_nested :
  JSON.parse (dq "{'a': [1, 2.50, {'b': null}], 'c': 'x\ny', 'a': true}")
  = Normal (JObj [(lit "a", JBool true); (lit "c", JStr [120; 10; 121]%N)]).
Proof. vm_compute. reflexivity. Qed.

Example parse_number_forms :
  JSON.parse (lit "[-0, 1e3, 12.5E-1, 0.001]")
  = Normal (JArr [JNum 0 0; JNum 1 3; JNum 125 (-2); JNum 1 (-3)]).
Proof. vm_compute. reflexivity. Qed.

Example parse_rejects :
  map JSON.parse [lit "[1,]"; lit "01"; lit "{a:1}"; lit "1 2"; lit ""; lit "[1"; dq "'\x'"]
  = repeat (Throw SyntaxError) 7.
Proof. vm_compute. reflexivity. Qed.

Example decode_euro_split :
  let (st, t1) := TextDecoder.decode TextDecoder.init [xe2; x82] in
  (t1, snd (TextDecoder.decode st [xac; x21])) = ([], [8364; 33]%N).
Proof. vm_compute. reflexivity. Qed.

Example decode_astral_and_bom :
  snd (TextDecoder.decode TextDecoder.init [xef; xbb; xbf; xf0; x9f; x98; x80])
  = [55357; 56832]%N.
Proof. vm_compute. reflexivity. Qed.

Example decode_malformed :
  snd (TextDecoder.decode TextDecoder.init [xe2; x41; xff])
  = [65533; 65; 65533]%N.
Proof. vm_compute. reflexivity. Qed.

Example openai_spec_payload :
  OpenAI.read_loop TextDecoder.init [] [bytes_of spec_payload_A] Done
  = {| yielded := [JStr (lit "Hello")]; ended := Finished |}.
Proof. vm_compute. reflexivity. Qed.

Example gemini_spec_payload :
  Gemini.read_loop TextDecoder.init [] [bytes_of spec_payload_C] Done
  = {| yielded := [JStr (lit "a { b } c")]; ended := Finished |}.
Proof. vm_compute. reflexivity. Qed.

Example gemini_spec_payload_byte_by_byte :
  Gemini.read_loop TextDecoder.init []
    (map (fun b => [b]) (bytes_of spec_payload_C)) Done
  = {| yielded := [JStr (lit "a { b } c")]; ended := Finished |}.
Proof. vm_compute. reflexivity. Qed.

Example openai_summarize_end_to_end :
  OpenAI.summarize (lit "text") sample_options
    (fun _ => Normal (streaming [bytes_of hello_line; bytes_of [NEWLINE]]))
  = ([OpenAI.request (lit "text") sample_options],
     {| yielded := [JStr (lit "Hello")]; ended := Finished |}).
Proof. vm_compute. reflexivity. Qed.

Example anthropic_done_returns :
  Anthropic.read_loop TextDecoder.init []
    [bytes_of (lit "data: [DONE]" ++ [NEWLINE]
               ++ dq "data: {'type':'content_block_delta','delta':{'type':'text_delta','text':'late'}}"
               ++ [NEWLINE])]
    (ReadFailed (lit "connection lost"))
  = {| yielded := []; ended := Finished |}.
Proof. vm_compute. reflexivity. Qed.

(** Values that are not strings are yielded as they are, and an OpenAI
    delta whose content is falsy is skipped. *)
Example openai_content_values :
  map OpenAI.data_line
    [dq "{'choices':[{'delta':{'content':''}}]}";
     dq "{'choices':[{'delta':{'content':0}}]}";
     dq "{'choices':[{'delta':{'content':7}}]}";
     dq "{'choices':[{'delta':{}}]}";
     dq "{'choices':[]}";
     dq "{'error':{'message':'overloaded'}}";
     lit "null";
     lit "{not json"]
  = [[]; []; [JNum 7 0]; []; []; []; []; []].
Proof. vm_compute. reflexivity. Qed.

(** The first model of the list that contains a keyword is chosen: the
    order of the keywords does not rank the models. *)
Example keyword_order_does_not_rank :
  App.pickBestModel [lit "x-turbo"; lit "x-flash"] (lit "mistral")
  = Normal (lit "x-turbo").
Proof. vm_compute. reflexivity. Qed.

(** A provider named like a member of [Object.prototype] makes the
    [for ... of] loop throw. *)
Example inherited_name_throws :
  App.pickBestModel [lit "x"] (lit "constructor") = Throw TypeError.
Proof. vm_compute. reflexivity. Qed.

Example anthropic_text_delta :
  Anthropic.read_loop TextDecoder.init []
    [bytes_of (lit "event: content_block_delta" ++ [NEWLINE]);
     bytes_of (dq "data: {'type':'content_block_delta','delta':{'type':'text_delta','text':'Hi'}}" ++ [NEWLINE]);
     bytes_of (dq "data: {'type':'message_stop'}" ++ [NEWLINE])] Done
  = {| yielded := [JStr (lit "Hi")]; ended := Finished |}.
Proof. vm_compute. reflexivity. Qed.

(** ** Generator runs *)

Lemma after_nil (r : run) : after [] r = r.
Proof. destruct r; reflexivity. Qed.

Lemma after_after (xs ys : list jsval) (r : run) :
  after xs (after ys r) = after (xs ++ ys) r.
Proof. unfold after; simpl. now rewrite app_assoc. Qed.

(** ** The streaming decoder is a fold over the bytes *)

Lemma decode_app (st : TextDecoder.state) (a b : list byte) :
  TextDecoder.decode st (a ++ b) =
  let (st1, t1) := TextDecoder.decode st a in
  let (st2, t2) := TextDecoder.decode st1 b in
  (st2, t1 ++ t2).
Proof.
  revert st; induction a as [|x a IH]; intros st; simpl.
  - now destruct (TextDecoder.decode st b).
  - destruct (TextDecoder.decode_byte st x) as [st1 t1].
    rewrite IH.
    destruct (TextDecoder.decode st1 a) as [st2 t2].
    destruct (TextDecoder.decode st2 b) as [st3 t3].
    now rewrite app_assoc.
Qed.

(** ** Splitting a text that arrives in two parts *)

Lemma split_not_nil (c : codeunit) (s : jsstring) : split c s <> [].
Proof.
  destruct s as [|x s]; simpl; [discriminate|].
  destruct (N.eqb x c); [discriminate|].
  destruct (split c s); discriminate.
Qed.

Lemma split_snoc (c : codeunit) (s : jsstring) :
  exists lines final, split c s = lines ++ [final].
Proof.
  destruct (exists_last (split_not_nil c s)) as (lines & final & E).
  now exists lines, final.
Qed.

(** The lines completed by [a] stay as they are when more text comes;
    what follows them is the split of the unfinished line and the new
    text. *)
Lemma split_app (c : codeunit) (a b : jsstring) :
  forall lines final,
    split c a = lines ++ [final] ->
    split c (a ++ b) = lines ++ split c (final ++ b).
Proof.
  induction a as [|x a IH]; intros lines final E; simpl in *.
  - destruct lines as [|l lines]; simpl in E.
    + now injection E as <-.
    + destruct lines; discriminate.
  - destruct (N.eqb x c) eqn:Ex.
    + destruct (split_snoc c a) as (lines' & final' & E').
      rewrite E' in E.
      change ([] :: lines' ++ [final']) with (([] :: lines') ++ [final']) in E.
      apply app_inj_tail in E as [<- <-].
      simpl. f_equal. now apply IH.
    + destruct (split c a) as [|seg segs] eqn:Ea.
      { exfalso. exact (split_not_nil c a Ea). }
      destruct lines as [|l lines]; simpl in E.
      * injection E as <- ->.
        rewrite (IH [] seg eq_refl). simpl.
        now rewrite Ex.
      * injection E as <- ->.
        rewrite (IH (seg :: lines) final eq_refl). reflexivity.
Qed.

Lemma pop_snoc {A : Type} (l : list A) (x : A) : pop (l ++ [x]) = (l, Some x).
Proof. unfold pop. rewrite rev_unit. now rewrite rev_involutive. Qed.

Lemma pop_split_app (c : codeunit) (a b : jsstring) :
  pop (split c (a ++ b)) =
  let (lines, final) := pop (split c a) in
  let (lines', final') := pop (split c (or_empty final ++ b)) in
  (lines ++ lines', final').
Proof.
  destruct (split_snoc c a) as (lines & final & E).
  rewrite (split_app c a b lines final E), E, pop_snoc. simpl.
  destruct (split_snoc c (final ++ b)) as (lines' & final' & E').
  rewrite E', app_assoc, !pop_snoc. reflexivity.
Qed.

(** ** The read loop of the event-stream services *)

Section LineLoopFacts.

Variable for_lines : list jsstring -> list jsval * bool.

(** What a [for ... of] loop with an early [return] does on two runs of
    lines in a row. *)
Hypothesis for_lines_app : forall l1 l2,
  for_lines (l1 ++ l2) =
  match for_lines l1 with
  | (ys, true) => (ys, true)
  | (ys, false) => let (ys', r) := for_lines l2 in (ys ++ ys', r)
  end.

Lemma feed_app (buffer t1 t2 : jsstring) :
  fst (feed for_lines buffer (t1 ++ t2)) =
  match feed for_lines buffer t1 with
  | (ys, true, _) => (ys, true)
  | (ys, false, buffer') =>
      let '(ys', r, _) := feed for_lines buffer' t2 in (ys ++ ys', r)
  end
  /\ (snd (fst (feed for_lines buffer t1)) = false ->
      snd (feed for_lines buffer (t1 ++ t2)) =
      snd (feed for_lines (snd (feed for_lines buffer t1)) t2)).
Proof.
  unfold feed. rewrite app_assoc, pop_split_app.
  destruct (pop (split NEWLINE (buffer ++ t1))) as [lines final].
  cbn [fst snd].
  destruct (pop (split NEWLINE (or_empty final ++ t2))) as [lines' final'].
  cbn [fst snd]. rewrite for_lines_app.
  destruct (for_lines lines) as [ys [|]]; simpl.
  - split; [reflexivity | discriminate].
  - destruct (for_lines lines') as [ys' r]. split; reflexivity.
Qed.

Lemma read_lines_merge (d : TextDecoder.state) (buffer : jsstring)
    (c1 c2 : list byte) (more : list (list byte)) (fin : stream_end) :
  read_lines for_lines d buffer (c1 :: c2 :: more) fin =
  read_lines for_lines d buffer ((c1 ++ c2) :: more) fin.
Proof.
  cbn [read_lines]. rewrite decode_app.
  destruct (TextDecoder.decode d c1) as [d1 t1].
  destruct (TextDecoder.decode d1 c2) as [d2 t2].
  destruct (feed_app buffer t1 t2) as [Hfst Hsnd].
  destruct (feed for_lines buffer t1) as [[ys1 r1] b1]; simpl in *.
  destruct (feed for_lines buffer (t1 ++ t2)) as [[ys r] b]; simpl in *.
  destruct r1.
  - now injection Hfst as -> ->.
  - specialize (Hsnd eq_refl).
    destruct (feed for_lines b1 t2) as [[ys2 r2] b2]; simpl in *.
    injection Hfst as -> ->. subst b.
    destruct r2.
    + reflexivity.
    + now rewrite after_after.
Qed.

Lemma read_lines_chunks (d : TextDecoder.state) (buffer : jsstring)
    (c : list byte) (cs : list (list byte)) (fin : stream_end) :
  read_lines for_lines d buffer (c :: cs) fin =
  read_lines for_lines d buffer [c ++ concat cs] fin.
Proof.
  revert c; induction cs as [|c2 cs IH]; intros c.
  - simpl concat. now rewrite app_nil_r.
  - rewrite read_lines_merge, IH. simpl concat. now rewrite app_assoc.
Qed.

Hypothesis for_lines_nil : for_lines [] = ([], false).

Lemma read_lines_partition (chunks : list (list byte)) (fin : stream_end) :
  read_lines for_lines TextDecoder.init [] chunks fin =
  read_lines for_lines TextDecoder.init [] [concat chunks] fin.
Proof.
  destruct chunks as [|c cs].
  - cbn. rewrite for_lines_nil. now rewrite after_nil.
  - now rewrite read_lines_chunks.
Qed.

End LineLoopFacts.

Lemma openai_for_lines_app (l1 l2 : list jsstring) :
  OpenAI.for_lines (l1 ++ l2) =
  match OpenAI.for_lines l1 with
  | (ys, true) => (ys, true)
  | (ys, false) => let (ys', r) := OpenAI.for_lines l2 in (ys ++ ys', r)
  end.
Proof.
  induction l1 as [|line l1 IH]; cbn [OpenAI.for_lines app].
  - now destruct (OpenAI.for_lines l2).
  - destruct (eqb (trim line) []); [exact IH|].
    destruct (eqb (trim line) (lit "data: [DONE]")); [reflexivity|].
    destruct (startsWith line (lit "data: ")); [|exact IH].
    rewrite IH.
    destruct (OpenAI.for_lines l1) as [ys [|]]; [reflexivity|].
    destruct (OpenAI.for_lines l2) as [ys' r].
    now rewrite app_assoc.
Qed.

Lemma anthropic_for_lines_app (l1 l2 : list jsstring) :
  Anthropic.for_lines (l1 ++ l2) =
  match Anthropic.for_lines l1 with
  | (ys, true) => (ys, true)
  | (ys, false) => let (ys', r) := Anthropic.for_lines l2 in (ys ++ ys', r)
  end.
Proof.
  induction l1 as [|line l1 IH]; cbn [Anthropic.for_lines app].
  - now destruct (Anthropic.for_lines l2).
  - destruct (eqb (trim line) []); [exact IH|].
    destruct (startsWith line (lit "event: ")); [exact IH|].
    destruct (startsWith line (lit "data: ")); [|exact IH].
    destruct (eqb (slice line 6) (lit "[DONE]")); [reflexivity|].
    rewrite IH.
    destruct (Anthropic.for_lines l1) as [ys [|]]; [reflexivity|].
    destruct (Anthropic.for_lines l2) as [ys' r].
    now rewrite app_assoc.
Qed.

(** ** The scan of the Gemini service *)

Lemma find_unit_bounds (c : codeunit) (s : jsstring) (i : nat) :
  find_unit c s = Some i -> i < length s /\ nth_error s i = Some c.
Proof.
  revert i; induction s as [|x s IH]; intros i; simpl; [discriminate|].
  destruct (N.eqb x c) eqn:E.
  - intros [= <-]. apply N.eqb_eq in E as ->. split; [lia | reflexivity].
  - destruct (find_unit c s) as [j|]; [|discriminate].
    intros [= <-]. destruct (IH j eq_refl). split; [lia | assumption].
Qed.

Lemma find_unit_app (c : codeunit) (s t : jsstring) (i : nat) :
  find_unit c s = Some i -> find_unit c (s ++ t) = Some i.
Proof.
  revert i; induction s as [|x s IH]; intros i; simpl; [discriminate|].
  destruct (N.eqb x c); [trivial|].
  destruct (find_unit c s) as [j|]; [|discriminate].
  now rewrite (IH j eq_refl).
Qed.

Lemma indexOf_bounds (s : jsstring) (c : codeunit) (cursor start : nat) :
  indexOf s c cursor = Some start ->
  cursor <= start < length s /\ charAt s start = Some c.
Proof.
  unfold indexOf, charAt.
  destruct (find_unit c (skipn cursor s)) as [i|] eqn:E; [|discriminate].
  intros [= <-]. apply find_unit_bounds in E as [Hlt Hnth].
  rewrite length_skipn in Hlt. rewrite nth_error_skipn in Hnth.
  split; [lia | assumption].
Qed.

Lemma indexOf_app (s t : jsstring) (c : codeunit) (cursor start : nat) :
  indexOf s c cursor = Some start -> indexOf (s ++ t) c cursor = Some start.
Proof.
  unfold indexOf. rewrite skipn_app.
  destruct (find_unit c (skipn cursor s)) as [i|] eqn:E; [|discriminate].
  intros [= <-]. now rewrite (find_unit_app _ _ _ _ E).
Qed.

Lemma indexOf_shift (s : jsstring) (c : codeunit) (k cursor : nat) :
  indexOf s c (k + cursor) = option_map (Nat.add k) (indexOf (skipn k s) c cursor).
Proof.
  unfold indexOf. rewrite skipn_skipn, (Nat.add_comm cursor k).
  destruct (find_unit c (skipn (k + cursor) s)); simpl; [|reflexivity].
  f_equal. lia.
Qed.

Lemma find_end_bounds (buffer : jsstring) (fuel : nat) :
  forall i braceCount inString e,
    Gemini.find_end buffer fuel i braceCount inString = Some e ->
    i <= e < length buffer.
Proof.
  induction fuel as [|fuel IH]; intros i bc ins e; [discriminate|].
  cbn [Gemini.find_end].
  unfold charAt. destruct (nth_error buffer i) as [char|] eqn:Ei; [|discriminate].
  assert (i < length buffer) by (apply nth_error_Some; congruence).
  case_inString.
  - intros H1. apply IH in H1. lia.
  - destruct (N.eqb char RBRACE).
    + destruct (Z.eqb _ 0).
      * intros [= <-]. lia.
      * intros H1. apply IH in H1. lia.
    + intros H1. apply IH in H1. lia.
Qed.

Lemma charBefore_app (b t : jsstring) (i : nat) :
  i < length b -> charBefore (b ++ t) i = charBefore b i.
Proof.
  destruct i as [|j]; simpl; [reflexivity|].
  intros H. apply nth_error_app1. lia.
Qed.

(** An object that is complete in the buffer is found again, with the
    same end, when more text has been appended. *)
Lemma find_end_app (b t : jsstring) (fuel : nat) :
  forall fuel' i braceCount inString e,
    Gemini.find_end b fuel i braceCount inString = Some e ->
    fuel <= fuel' ->
    Gemini.find_end (b ++ t) fuel' i braceCount inString = Some e.
Proof.
  induction fuel as [|fuel IH]; intros fuel' i bc ins e; [discriminate|].
  intros H Hle. destruct fuel' as [|fuel']; [lia|].
  revert H. cbn [Gemini.find_end].
  unfold charAt.
  destruct (nth_error b i) as [char|] eqn:Ei; [|discriminate].
  assert (Hi : i < length b) by (apply nth_error_Some; congruence).
  rewrite nth_error_app1, Ei, charBefore_app by assumption.
  case_inString.
  - intros H. apply IH; [assumption | lia].
  - destruct (N.eqb char RBRACE).
    + destruct (Z.eqb _ 0); [trivial|]. intros H. apply IH; [assumption | lia].
    + intros H. apply IH; [assumption | lia].
Qed.

(** Past its first position the search only looks at the text from the
    position before it on: it can be run on the buffer without its first
    [k] code units. *)
Lemma find_end_shift (buffer : jsstring) (k fuel : nat) :
  forall i braceCount inString,
    Gemini.find_end buffer fuel (k + S i) braceCount inString =
    option_map (Nat.add k)
      (Gemini.find_end (skipn k buffer) fuel (S i) braceCount inString).
Proof.
  induction fuel as [|fuel IH]; intros i bc ins; [reflexivity|].
  cbn [Gemini.find_end].
  unfold charAt. rewrite nth_error_skipn.
  replace (charBefore buffer (k + S i)) with (charBefore (skipn k buffer) (S i))
    by (rewrite Nat.add_succ_r; simpl; now rewrite nth_error_skipn).
  destruct (nth_error buffer (k + S i)) as [char|]; [|reflexivity].
  replace (S (k + S i)) with (k + S (S i)) by lia.
  case_inString; [apply IH|].
  destruct (N.eqb char RBRACE); [|apply IH].
  destruct (Z.eqb _ 0); [reflexivity | apply IH].
Qed.

(** The first turn of the search, on the opening brace. *)
Lemma find_end_start (buffer : jsstring) (fuel start : nat) :
  charAt buffer start = Some LBRACE ->
  Gemini.find_end buffer (S fuel) start 0 false =
  Gemini.find_end buffer fuel (S start) 1 false.
Proof. intros E. cbn [Gemini.find_end]. rewrite E. reflexivity. Qed.

Lemma find_end_shift_start (buffer : jsstring) (k start : nat) :
  charAt (skipn k buffer) start = Some LBRACE ->
  Gemini.find_end buffer (length buffer - (k + start)) (k + start) 0 false =
  option_map (Nat.add k)
    (Gemini.find_end (skipn k buffer) (length (skipn k buffer) - start) start 0 false).
Proof.
  intros E. rewrite length_skipn.
  replace (length buffer - (k + start)) with (length buffer - k - start) by lia.
  destruct (length buffer - k - start) as [|fuel]; [reflexivity|].
  rewrite !find_end_start; try assumption.
  - replace (S (k + start)) with (k + S start) by lia. apply find_end_shift.
  - unfold charAt in *. now rewrite nth_error_skipn in E.
Qed.

Lemma scan_enough (buffer : jsstring) (f1 : nat) :
  forall f2 cursor,
    length buffer - cursor < f1 -> length buffer - cursor < f2 ->
    Gemini.scan buffer f1 cursor = Gemini.scan buffer f2 cursor.
Proof.
  induction f1 as [|f1 IH]; intros f2 cursor H1 H2; [lia|].
  destruct f2 as [|f2]; [lia|]. cbn [Gemini.scan].
  destruct (cursor <? length buffer) eqn:Hc; [|reflexivity]. cbn [negb].
  apply Nat.ltb_lt in Hc.
  destruct (indexOf buffer LBRACE cursor) as [start|] eqn:Es; [|reflexivity].
  apply indexOf_bounds in Es as [Hs _].
  destruct (Gemini.find_end _ _ start 0 false) as [e|] eqn:Ee; [|reflexivity].
  apply find_end_bounds in Ee.
  rewrite (IH f2 (e + 1)) by lia. reflexivity.
Qed.

(** One turn of the [while (cursor < buffer.length)] loop. *)
Lemma scan_all_eq (buffer : jsstring) (cursor : nat) :
  scan_all buffer cursor =
  if negb (cursor <? length buffer) then ([], cursor)
  else match indexOf buffer LBRACE cursor with
       | None => ([], cursor)
       | Some start =>
           match Gemini.find_end buffer (length buffer - start) start 0 false with
           | Some e =>
               let (ys, cursor') := scan_all buffer (e + 1) in
               (Gemini.object_text (substring buffer start (e + 1)) ++ ys, cursor')
           | None => ([], cursor)
           end
       end.
Proof.
  unfold scan_all at 1. cbn [Gemini.scan].
  destruct (cursor <? length buffer) eqn:Hc; [|reflexivity]. cbn [negb].
  apply Nat.ltb_lt in Hc.
  destruct (indexOf buffer LBRACE cursor) as [start|] eqn:Es; [|reflexivity].
  apply indexOf_bounds in Es as [Hs _].
  destruct (Gemini.find_end _ _ start 0 false) as [e|] eqn:Ee; [|reflexivity].
  apply find_end_bounds in Ee.
  unfold scan_all. rewrite (scan_enough buffer (length buffer - cursor)
                              (S (length buffer - (e + 1))) (e + 1)) by lia.
  reflexivity.
Qed.

Lemma scan_all_bounds (buffer : jsstring) (n : nat) :
  forall cursor ys c,
    length buffer - cursor <= n ->
    cursor <= length buffer ->
    scan_all buffer cursor = (ys, c) ->
    cursor <= c <= length buffer.
Proof.
  induction n as [|n IH]; intros cursor ys c Hn Hle; rewrite scan_all_eq.
  - assert (E : (cursor <? length buffer) = false) by (apply Nat.ltb_ge; lia).
    rewrite E. intros [= _ <-]. lia.
  - destruct (cursor <? length buffer) eqn:Hc; cbn [negb].
    2:{ intros [= _ <-]. lia. }
    apply Nat.ltb_lt in Hc.
    destruct (indexOf buffer LBRACE cursor) as [start|] eqn:Es.
    2:{ intros [= _ <-]. lia. }
    apply indexOf_bounds in Es as [Hs _].
    destruct (Gemini.find_end _ _ start 0 false) as [e|] eqn:Ee.
    2:{ intros [= _ <-]. lia. }
    apply find_end_bounds in Ee.
    destruct (scan_all buffer (e + 1)) as [ys' c'] eqn:E'.
    intros [= _ <-].
    apply IH in E'; lia.
Qed.

Lemma substring_app (b t : jsstring) (start e : nat) :
  e < length b ->
  substring (b ++ t) start (e + 1) = substring b start (e + 1).
Proof.
  intros H. unfold substring. rewrite skipn_app, firstn_app, length_skipn.
  replace (e + 1 - start - (length b - start)) with 0 by lia.
  now rewrite firstn_O, app_nil_r.
Qed.

(** The scan of a longer buffer goes through what the scan of the
    shorter one did, and carries on from the cursor it stopped at. *)
Lemma scan_all_app (b t : jsstring) (n : nat) :
  forall cursor,
    length b - cursor <= n ->
    scan_all (b ++ t) cursor =
    let (ys1, c1) := scan_all b cursor in
    let (ys', c') := scan_all (b ++ t) c1 in
    (ys1 ++ ys', c').
Proof.
  assert (Stop : forall cursor,
             scan_all (b ++ t) cursor =
             let (ys', c') := scan_all (b ++ t) cursor in ([] ++ ys', c'))
    by (intros; now destruct (scan_all (b ++ t) cursor)).
  induction n as [|n IH]; intros cursor Hn; rewrite (scan_all_eq b).
  - assert (E : (cursor <? length b) = false) by (apply Nat.ltb_ge; lia).
    rewrite E. apply Stop.
  - destruct (cursor <? length b) eqn:Hc; cbn [negb]; [|apply Stop].
    apply Nat.ltb_lt in Hc.
    destruct (indexOf b LBRACE cursor) as [start|] eqn:Es; [|apply Stop].
    destruct (Gemini.find_end b _ start 0 false) as [e|] eqn:Ee; [|apply Stop].
    rewrite (scan_all_eq (b ++ t) cursor).
    assert (E : (cursor <? length (b ++ t)) = true)
      by (apply Nat.ltb_lt; rewrite length_app; lia).
    rewrite E, (indexOf_app _ t _ _ _ Es). cbn [negb].
    rewrite (find_end_app b t _ (length (b ++ t) - start) _ _ _ _ Ee)
      by (rewrite length_app; lia).
    apply indexOf_bounds in Es as [Hs _].
    apply find_end_bounds in Ee.
    rewrite substring_app by lia.
    rewrite (IH (e + 1)) by lia.
    destruct (scan_all b (e + 1)) as [ys1 c1].
    destruct (scan_all (b ++ t) c1) as [ys' c'].
    now rewrite app_assoc.
Qed.

Lemma substring_shift (buffer : jsstring) (k start e : nat) :
  substring buffer (k + start) (k + e + 1) = substring (skipn k buffer) start (e + 1).
Proof.
  unfold substring. rewrite skipn_skipn, (Nat.add_comm start k).
  f_equal. lia.
Qed.

(** The scan does not look behind its cursor: it can be run on the buffer
    without its first [k] code units. *)
Lemma scan_all_shift (buffer : jsstring) (k n : nat) :
  forall cursor,
    length buffer - (k + cursor) <= n ->
    scan_all buffer (k + cursor) =
    let (ys, c) := scan_all (skipn k buffer) cursor in (ys, k + c).
Proof.
  induction n as [|n IH]; intros cursor Hn;
    rewrite (scan_all_eq buffer), (scan_all_eq (skipn k buffer));
    rewrite length_skipn;
    replace (cursor <? length buffer - k) with (k + cursor <? length buffer)
      by (destruct (Nat.ltb_spec (k + cursor) (length buffer));
          symmetry; [apply Nat.ltb_lt | apply Nat.ltb_ge]; lia).
  - assert (E : (k + cursor <? length buffer) = false) by (apply Nat.ltb_ge; lia).
    now rewrite E.
  - destruct (k + cursor <? length buffer) eqn:Hc; cbn [negb]; [|reflexivity].
    apply Nat.ltb_lt in Hc.
    rewrite indexOf_shift.
    destruct (indexOf (skipn k buffer) LBRACE cursor) as [start|] eqn:Es;
      cbn [option_map]; [|reflexivity].
    apply indexOf_bounds in Es as [Hs Hch].
    rewrite (find_end_shift_start buffer k start Hch), length_skipn.
    destruct (Gemini.find_end (skipn k buffer) _ start 0 false) as [e|] eqn:Ee;
      cbn [option_map]; [|reflexivity].
    apply find_end_bounds in Ee. rewrite length_skipn in Ee.
    rewrite substring_shift.
    replace (k + e + 1) with (k + (e + 1)) by lia.
    rewrite (IH (e + 1)) by lia.
    now destruct (scan_all (skipn k buffer) (e + 1)).
Qed.

Lemma gemini_feed_eq (buffer text : jsstring) :
  Gemini.feed buffer text =
  let (ys, cursor) := scan_all (buffer ++ text) 0 in
  (ys, skipn cursor (buffer ++ text)).
Proof.
  unfold Gemini.feed, scan_all, slice. rewrite Nat.sub_0_r.
  destruct (Gemini.scan _ _ 0) as [ys [|c]]; reflexivity.
Qed.

(** Feeding a text in two parts yields the same values and leaves the
    same buffer as feeding it at once. *)
Lemma gemini_feed_app (buffer t1 t2 : jsstring) :
  Gemini.feed buffer (t1 ++ t2) =
  let (ys1, b1) := Gemini.feed buffer t1 in
  let (ys2, b2) := Gemini.feed b1 t2 in
  (ys1 ++ ys2, b2).
Proof.
  rewrite !gemini_feed_eq, app_assoc.
  rewrite (scan_all_app (buffer ++ t1) t2 (length (buffer ++ t1)) 0) by lia.
  destruct (scan_all (buffer ++ t1) 0) as [ys1 c1] eqn:E1.
  apply (scan_all_bounds _ (length (buffer ++ t1))) in E1; [|lia..].
  rewrite gemini_feed_eq.
  replace c1 with (c1 + 0) at 1 by lia.
  rewrite (scan_all_shift _ c1 (length ((buffer ++ t1) ++ t2)) 0) by lia.
  rewrite skipn_app.
  replace (c1 - length (buffer ++ t1)) with 0 by lia.
  rewrite skipn_O.
  destruct (scan_all (skipn c1 (buffer ++ t1) ++ t2) 0) as [ys2 c2].
  f_equal.
  rewrite (Nat.add_comm c1 c2), <- skipn_skipn, skipn_app.
  replace (c1 - length (buffer ++ t1)) with 0 by lia.
  now rewrite skipn_O.
Qed.

Lemma gemini_read_merge (d : TextDecoder.state) (buffer : jsstring)
    (c1 c2 : list byte) (more : list (list byte)) (fin : stream_end) :
  Gemini.read_loop d buffer (c1 :: c2 :: more) fin =
  Gemini.read_loop d buffer ((c1 ++ c2) :: more) fin.
Proof.
  cbn [Gemini.read_loop]. rewrite decode_app.
  destruct (TextDecoder.decode d c1) as [d1 t1].
  destruct (TextDecoder.decode d1 c2) as [d2 t2].
  rewrite gemini_feed_app.
  destruct (Gemini.feed buffer t1) as [ys1 b1].
  destruct (Gemini.feed b1 t2) as [ys2 b2].
  now rewrite after_after.
Qed.

Lemma gemini_read_chunks (d : TextDecoder.state) (buffer : jsstring)
    (c : list byte) (cs : list (list byte)) (fin : stream_end) :
  Gemini.read_loop d buffer (c :: cs) fin =
  Gemini.read_loop d buffer [c ++ concat cs] fin.
Proof.
  revert c; induction cs as [|c2 cs IH]; intros c.
  - simpl concat. now rewrite app_nil_r.
  - rewrite gemini_read_merge, IH. simpl concat. now rewrite app_assoc.
Qed.

(** ** C1: chunk boundaries do not matter *)

Lemma openai_read_partition (chunks : list (list byte)) (fin : stream_end) :
  OpenAI.read_loop TextDecoder.init [] chunks fin
  = OpenAI.read_loop TextDecoder.init [] [concat chunks] fin.
Proof. apply read_lines_partition; [apply openai_for_lines_app | reflexivity]. Qed.

Lemma anthropic_read_partition (chunks : list (list byte)) (fin : stream_end) :
  Anthropic.read_loop TextDecoder.init [] chunks fin
  = Anthropic.read_loop TextDecoder.init [] [concat chunks] fin.
Proof. apply read_lines_partition; [apply anthropic_for_lines_app | reflexivity]. Qed.

Lemma gemini_read_partition (chunks : list (list byte)) (fin : stream_end) :
  Gemini.read_loop TextDecoder.init [] chunks fin
  = Gemini.read_loop TextDecoder.init [] [concat chunks] fin.
Proof.
  destruct chunks as [|c cs].
  - cbn. now rewrite after_nil.
  - apply gemini_read_chunks.
Qed.

(** C1.  For each of the three decoders (OpenAI and Anthropic event
    streams, Gemini bare array), whatever the bytes of the body are and
    however they are cut into chunks, reading the chunks one at a time
    gives the same run (the same values yielded in the same order and the
    same end) as reading all the bytes in a single chunk. *)
Theorem chunking_does_not_change_the_run
    (chunks : list (list byte)) (fin : stream_end) :
  OpenAI.read_loop TextDecoder.init [] chunks fin
    = OpenAI.read_loop TextDecoder.init [] [concat chunks] fin
  /\ Anthropic.read_loop TextDecoder.init [] chunks fin
    = Anthropic.read_loop TextDecoder.init [] [concat chunks] fin
  /\ Gemini.read_loop TextDecoder.init [] chunks fin
    = Gemini.read_loop TextDecoder.init [] [concat chunks] fin.
Proof.
  repeat split.
  - apply openai_read_partition.
  - apply anthropic_read_partition.
  - apply gemini_read_partition.
Qed.

(** ** What a whole body decodes to *)

Lemma split_sep (c : codeunit) (h rest : jsstring) :
  split c (h ++ c :: rest) = split c h ++ split c rest.
Proof.
  induction h as [|x h IH]; simpl.
  - now rewrite N.eqb_refl.
  - destruct (N.eqb x c); [now rewrite IH|].
    rewrite IH. destruct (split c h) eqn:E; [|reflexivity].
    exfalso. exact (split_not_nil c h E).
Qed.

Lemma split_one_line (l : jsstring) : one_line l = true -> split NEWLINE l = [l].
Proof.
  unfold one_line. induction l as [|x l IH]; cbn [split existsb]; [reflexivity|].
  rewrite negb_orb, (N.eqb_sym NEWLINE x). intros [Hx Hl]%andb_prop.
  apply negb_true_iff in Hx. rewrite Hx, (IH Hl). reflexivity.
Qed.

Lemma split_unlines (lines : list jsstring) (rest : jsstring) :
  forallb one_line lines = true ->
  split NEWLINE (unlines lines ++ rest) = lines ++ split NEWLINE rest.
Proof.
  unfold unlines. induction lines as [|l lines IH]; simpl; [reflexivity|].
  intros [Hl Hls]%andb_prop.
  rewrite <- !app_assoc. simpl.
  rewrite split_sep, (split_one_line l Hl), (IH Hls). reflexivity.
Qed.

Lemma pop_app_snoc {A : Type} (l1 l2 : list A) :
  l2 <> [] -> pop (l1 ++ l2) = (l1 ++ fst (pop l2), snd (pop l2)).
Proof.
  intros H. destruct (exists_last H) as (l & x & ->).
  now rewrite app_assoc, !pop_snoc.
Qed.

Section LineLoopText.

Variable for_lines : list jsstring -> list jsval * bool.
Hypothesis for_lines_app : forall l1 l2,
  for_lines (l1 ++ l2) =
  match for_lines l1 with
  | (ys, true) => (ys, true)
  | (ys, false) => let (ys', r) := for_lines l2 in (ys ++ ys', r)
  end.
Hypothesis for_lines_nil : for_lines [] = ([], false).

(** The run of a line loop, from the complete lines of the whole text. *)
Lemma read_lines_text (chunks : list (list byte)) (fin : stream_end) :
  read_lines for_lines TextDecoder.init [] chunks fin =
  match for_lines (fst (pop (split NEWLINE (decoded chunks)))) with
  | (ys, true) => {| yielded := ys; ended := Finished |}
  | (ys, false) => after ys (at_end fin)
  end.
Proof.
  rewrite (read_lines_partition for_lines for_lines_app for_lines_nil).
  unfold decoded. cbn [read_lines].
  destruct (TextDecoder.decode TextDecoder.init (concat chunks)) as [d text].
  unfold feed. cbn [app snd].
  destruct (pop (split NEWLINE text)) as [lines final]. cbn [fst].
  destruct (for_lines lines) as [ys [|]]; reflexivity.
Qed.

(** The text after the last line terminator plays no part. *)
Lemma read_lines_residual (chunks : list (list byte)) (fin : stream_end)
    (lines : list jsstring) (residual : jsstring) :
  forallb one_line lines = true ->
  one_line residual = true ->
  decoded chunks = unlines lines ++ residual ->
  read_lines for_lines TextDecoder.init [] chunks fin =
  match for_lines lines with
  | (ys, true) => {| yielded := ys; ended := Finished |}
  | (ys, false) => after ys (at_end fin)
  end.
Proof.
  intros Hl Hr E.
  rewrite read_lines_text, E, (split_unlines lines residual Hl).
  rewrite (split_one_line residual Hr), pop_snoc. reflexivity.
Qed.

(** Once a line makes the loop return, nothing that follows matters. *)
Lemma read_lines_returned (chunks more : list (list byte)) (fin : stream_end)
    (lines : list jsstring) (tail : jsstring) :
  forallb one_line lines = true ->
  snd (for_lines lines) = true ->
  decoded chunks = unlines lines ++ tail ->
  read_lines for_lines TextDecoder.init [] (chunks ++ more) fin =
  {| yielded := fst (for_lines lines); ended := Finished |}.
Proof.
  intros Hl Hret E.
  rewrite read_lines_text. unfold decoded in *.
  rewrite concat_app, decode_app.
  destruct (TextDecoder.decode TextDecoder.init (concat chunks)) as [d1 t1].
  destruct (TextDecoder.decode d1 (concat more)) as [d2 t2].
  cbn [snd] in *. subst t1.
  rewrite <- app_assoc, (split_unlines lines _ Hl).
  rewrite (pop_app_snoc lines _ (split_not_nil NEWLINE (tail ++ t2))). cbn [fst].
  rewrite for_lines_app.
  destruct (for_lines lines) as [ys r]. cbn [fst snd] in *. now subst r.
Qed.

End LineLoopText.

Lemma unlines_snoc (lines : list jsstring) (l : jsstring) :
  unlines (lines ++ [l]) = unlines lines ++ l ++ [NEWLINE].
Proof.
  unfold unlines. rewrite map_app, concat_app. simpl. now rewrite app_nil_r.
Qed.

(** ** C4: the sentinel of the OpenAI stream *)

(** C4.  On the input of the specification the OpenAI decoder yields the
    single fragment "Hello".  And whenever the body holds, after some
    complete lines, a line whose trimmed text is [data: [DONE]], the run
    ends there: it yields what the lines before the sentinel yield and
    completes, whatever text follows in the same chunk, whatever chunks
    follow, and however the body ends. *)
Theorem openai_done_ends_the_stream :
  OpenAI.read_loop TextDecoder.init [] [bytes_of spec_payload_A] Done
    = {| yielded := [JStr (lit "Hello")]; ended := Finished |}
  /\ forall (chunks more : list (list byte)) (fin : stream_end)
            (lines : list jsstring) (sentinel tail : jsstring),
       forallb one_line lines = true ->
       one_line sentinel = true ->
       trim sentinel = lit "data: [DONE]" ->
       decoded chunks = unlines lines ++ sentinel ++ [NEWLINE] ++ tail ->
       OpenAI.read_loop TextDecoder.init [] (chunks ++ more) fin
       = {| yielded := fst (OpenAI.for_lines lines); ended := Finished |}.
Proof.
  split; [vm_compute; reflexivity|].
  intros chunks more fin lines sentinel tail Hl Hs Ht E.
  assert (R : OpenAI.for_lines (lines ++ [sentinel])
              = (fst (OpenAI.for_lines lines), true)).
  { rewrite openai_for_lines_app.
    destruct (OpenAI.for_lines lines) as [ys [|]]; [reflexivity|].
    cbn [OpenAI.for_lines fst]. rewrite Ht. cbn. now rewrite app_nil_r. }
  unfold OpenAI.read_loop.
  rewrite (read_lines_returned OpenAI.for_lines openai_for_lines_app eq_refl
             chunks more fin (lines ++ [sentinel]) tail).
  - now rewrite R.
  - rewrite forallb_app, Hl. cbn. now rewrite Hs.
  - now rewrite R.
  - rewrite E, unlines_snoc, <- !app_assoc. reflexivity.
Qed.

(** The sentinel in the middle of a chunk, with a carriage return, then
    more data and a dropped connection. *)
Lemma openai_done_ends_the_stream_witness :
  OpenAI.read_loop TextDecoder.init []
    ([bytes_of (hello_line ++ [NEWLINE; NEWLINE] ++ lit "data: [D");
      bytes_of (lit "ONE]" ++ [13; NEWLINE]%N ++ world_line)]
     ++ [bytes_of ([NEWLINE] ++ world_line ++ [NEWLINE])])
    (ReadFailed (lit "connection lost"))
  = {| yielded := [JStr (lit "Hello")]; ended := Finished |}.
Proof.
  apply (proj2 openai_done_ends_the_stream
           _ _ _ [hello_line; []] (lit "data: [DONE]" ++ [13%N]) world_line);
    vm_compute; reflexivity.
Defined.

(** ** C3: braces and quoted strings in the Gemini scan *)

(** C3.  The quote that closes a string ending with an escaped backslash
    is taken for an escaped quote, and from there on the scan counts the
    braces inside strings instead of those outside.  Each of the two
    objects of [backslash_payload] is valid JSON with a text at the
    expected path, and alone the second is decoded.  In the payload the
    first object opens at position 1 and the scan closes it at position
    107, on the last of the four braces inside the quoted text of the
    second object (positions 103 to 108, quotes included); so the
    decoder yields nothing. *)
Theorem gemini_escaped_backslash_breaks_the_scan :
  Gemini.object_text backslash_object = [JStr [67; 58; 92]%N]
  /\ Gemini.object_text braces_object = [JStr (lit "}}}}")]
  /\ Gemini.read_loop TextDecoder.init [] [bytes_of braces_object] Done
     = {| yielded := [JStr (lit "}}}}")]; ended := Finished |}
  /\ indexOf backslash_payload LBRACE 0 = Some 1
  /\ substring backslash_payload 103 109 = dq "'}}}}'"
  /\ Gemini.find_end backslash_payload (length backslash_payload - 1) 1 0 false
     = Some 107
  /\ Gemini.read_loop TextDecoder.init [] [bytes_of backslash_payload] Done
     = {| yielded := []; ended := Finished |}.
Proof. vm_compute. repeat split; reflexivity. Qed.

(** ** C5: nothing is flushed at the end of the body *)

Lemma gemini_read_text (chunks : list (list byte)) (fin : stream_end) :
  Gemini.read_loop TextDecoder.init [] chunks fin =
  after (fst (Gemini.feed [] (decoded chunks))) (at_end fin).
Proof.
  rewrite gemini_read_partition.
  unfold decoded. cbn [Gemini.read_loop].
  destruct (TextDecoder.decode TextDecoder.init (concat chunks)) as [d text].
  cbn [snd]. now destruct (Gemini.feed [] text).
Qed.

(** Past the end of [b], in a text without a closing brace, the search
    for the end of an object finds nothing. *)
Lemma find_end_no_closing (b r : jsstring) (fuel : nat) :
  existsb (N.eqb RBRACE) r = false ->
  forall i braceCount inString,
    length b <= i ->
    Gemini.find_end (b ++ r) fuel i braceCount inString = None.
Proof.
  intros Hr. induction fuel as [|fuel IH]; intros i bc ins Hi; [reflexivity|].
  cbn [Gemini.find_end]. unfold charAt.
  destruct (nth_error (b ++ r) i) as [char|] eqn:Ei; [|reflexivity].
  assert (Hc : N.eqb char RBRACE = false).
  { rewrite nth_error_app2 in Ei by assumption.
    apply nth_error_In in Ei.
    destruct (N.eqb char RBRACE) eqn:E; [|reflexivity].
    apply N.eqb_eq in E. subst char.
    assert (H : existsb (N.eqb RBRACE) r = true)
      by (apply existsb_exists; exists RBRACE; split;
          [assumption | apply N.eqb_refl]).
    congruence. }
  rewrite Hc. case_inString; apply IH; lia.
Qed.

(** A search that has reached the end of the buffer without closing its
    object does not close it either when a text without a closing brace
    has been appended. *)
Lemma find_end_open_tail (b r : jsstring) (fuel : nat) :
  existsb (N.eqb RBRACE) r = false ->
  forall i braceCount inString,
    i + fuel = length b ->
    Gemini.find_end b fuel i braceCount inString = None ->
    Gemini.find_end (b ++ r) (fuel + length r) i braceCount inString = None.
Proof.
  intros Hr. induction fuel as [|fuel IH]; intros i bc ins Hi.
  - intros _. apply find_end_no_closing; [assumption | lia].
  - cbn [Nat.add Gemini.find_end]. unfold charAt.
    destruct (nth_error b i) as [char|] eqn:Ei.
    2:{ apply nth_error_None in Ei. lia. }
    assert (Hlt : i < length b) by lia.
    rewrite nth_error_app1, Ei, charBefore_app by assumption.
    case_inString.
    + apply IH. lia.
    + destruct (N.eqb char RBRACE).
      * destruct (Z.eqb _ 0); [discriminate|]. apply IH. lia.
      * apply IH. lia.
Qed.

Lemma find_unit_none_app (c : codeunit) (b r : jsstring) :
  find_unit c b = None ->
  find_unit c (b ++ r) = option_map (Nat.add (length b)) (find_unit c r).
Proof.
  induction b as [|x b IH]; cbn [find_unit app length].
  - intros _. now destruct (find_unit c r).
  - destruct (N.eqb x c); [discriminate|].
    destruct (find_unit c b); [discriminate|]. intros _.
    rewrite (IH eq_refl). now destruct (find_unit c r).
Qed.

(** A scan that has stopped at the start of the buffer stops there again
    when a text without a closing brace has been appended. *)
Lemma scan_all_open_tail (b r : jsstring) :
  existsb (N.eqb RBRACE) r = false ->
  snd (scan_all b 0) = 0 ->
  scan_all (b ++ r) 0 = ([], 0).
Proof.
  intros Hr. rewrite (scan_all_eq b 0), (scan_all_eq (b ++ r) 0).
  destruct (0 <? length (b ++ r)) eqn:Hbr; [|reflexivity]. cbn [negb].
  destruct (0 <? length b) eqn:Hb; cbn [negb].
  - destruct (indexOf b LBRACE 0) as [start|] eqn:Es.
    + rewrite (indexOf_app _ r _ _ _ Es).
      apply indexOf_bounds in Es as [Hs _].
      destruct (Gemini.find_end b _ start 0 false) as [e|] eqn:Ee.
      * apply find_end_bounds in Ee.
        destruct (scan_all b (e + 1)) as [ys c] eqn:E.
        apply (scan_all_bounds _ (length b)) in E; [|lia..].
        cbn [snd]. lia.
      * intros _.
        replace (length (b ++ r) - start) with (length b - start + length r)
          by (rewrite length_app; lia).
        rewrite (find_end_open_tail b r _ Hr start 0%Z false); [reflexivity | lia |].
        exact Ee.
    + intros _. unfold indexOf in *. cbn [skipn] in *.
      destruct (find_unit LBRACE b) as [i|] eqn:Eb; [discriminate|].
      rewrite (find_unit_none_app _ _ r Eb).
      destruct (find_unit LBRACE r) as [j|]; [|reflexivity].
      cbn [option_map Nat.add].
      now rewrite (find_end_no_closing b r _ Hr) by lia.
  - intros _. apply Nat.ltb_ge in Hb.
    destruct (indexOf (b ++ r) LBRACE 0) as [start|]; [|reflexivity].
    now rewrite (find_end_no_closing b r _ Hr) by lia.
Qed.

(** The scan of the buffer that [feed] leaves stops at its start. *)
Lemma gemini_feed_stopped (buffer text : jsstring) :
  snd (scan_all (snd (Gemini.feed buffer text)) 0) = 0.
Proof.
  pose proof (gemini_feed_app buffer text []) as H.
  rewrite app_nil_r in H.
  destruct (Gemini.feed buffer text) as [ys1 b1]. cbn [snd].
  rewrite gemini_feed_eq, app_nil_r in H.
  destruct (scan_all b1 0) as [ys2 c] eqn:E. cbn [snd].
  apply (scan_all_bounds _ (length b1)) in E; [|lia..].
  injection H as _ H.
  assert (Hlen : length b1 = length (skipn c b1)) by now rewrite <- H.
  rewrite length_skipn in Hlen. lia.
Qed.

(** Text without a closing brace at the end of what is fed yields
    nothing: an object cut short is not decoded. *)
Lemma gemini_feed_open_tail (buffer text tail : jsstring) :
  existsb (N.eqb RBRACE) tail = false ->
  fst (Gemini.feed buffer (text ++ tail)) = fst (Gemini.feed buffer text).
Proof.
  intros Hr. rewrite gemini_feed_app.
  pose proof (gemini_feed_stopped buffer text) as Hs.
  destruct (Gemini.feed buffer text) as [ys1 b1]. cbn [snd fst] in *.
  rewrite gemini_feed_eq, (scan_all_open_tail b1 tail Hr Hs).
  cbn [fst]. apply app_nil_r.
Qed.

(** An object that the scan does not close stays in the buffer: the one
    whose text ends with an escaped backslash is valid JSON, yields
    nothing, and is the whole buffer when the body ends. *)
Example gemini_buffer_left_with_an_object :
  throws (JSON.parse backslash_object) = false
  /\ Gemini.feed [] backslash_object = ([], backslash_object)
  /\ Gemini.read_loop TextDecoder.init [] [bytes_of backslash_object] Done
     = {| yielded := []; ended := Finished |}.
Proof. vm_compute. repeat split; reflexivity. Qed.

(** Against C5 as stated: a body that ends with a complete data line, but
    without a line terminator after it, yields nothing, although the line
    holds the fragment "Hello" and the same body followed by a line
    terminator yields it. *)
Lemma residual_line_is_not_flushed :
  one_line unterminated_line = true
  /\ OpenAI.data_line (slice unterminated_line 6) = [JStr (lit "Hello")]
  /\ OpenAI.read_loop TextDecoder.init [] [bytes_of unterminated_line] Done
     = {| yielded := []; ended := Finished |}
  /\ OpenAI.read_loop TextDecoder.init []
       [bytes_of (unterminated_line ++ [NEWLINE])] Done
     = {| yielded := [JStr (lit "Hello")]; ended := Finished |}.
Proof. vm_compute. repeat split; reflexivity. Qed.

(** C5, amended.  When the body ends nothing is flushed: no decoder has
    a step for the end of the stream, and the text left in the buffer is
    dropped.  The two event-stream decoders drop the text after the last
    line terminator: what they yield is what the complete lines yield.
    The Gemini decoder yields what the scans made as the text arrives
    yield, which is what one scan of the whole text yields, so what the
    scan has not closed by then is lost, whether or not it is a complete
    object; in particular text without a closing brace at the end of the
    body, an object cut short, yields nothing. *)
Theorem residual_buffer_is_discarded
    (chunks : list (list byte)) (lines : list jsstring) (residual : jsstring) :
  forallb one_line lines = true ->
  one_line residual = true ->
  decoded chunks = unlines lines ++ residual ->
  yielded (OpenAI.read_loop TextDecoder.init [] chunks Done)
    = fst (OpenAI.for_lines lines)
  /\ yielded (Anthropic.read_loop TextDecoder.init [] chunks Done)
    = fst (Anthropic.for_lines lines)
  /\ yielded (Gemini.read_loop TextDecoder.init [] chunks Done)
    = fst (Gemini.feed [] (decoded chunks))
  /\ (forall text tail : jsstring,
        decoded chunks = text ++ tail ->
        existsb (N.eqb RBRACE) tail = false ->
        yielded (Gemini.read_loop TextDecoder.init [] chunks Done)
        = fst (Gemini.feed [] text)).
Proof.
  intros Hl Hr E. repeat split.
  - unfold OpenAI.read_loop.
    rewrite (read_lines_residual OpenAI.for_lines openai_for_lines_app eq_refl
               chunks Done lines residual Hl Hr E).
    destruct (OpenAI.for_lines lines) as [ys [|]]; cbn; [|rewrite app_nil_r];
      reflexivity.
  - unfold Anthropic.read_loop.
    rewrite (read_lines_residual Anthropic.for_lines anthropic_for_lines_app
               eq_refl chunks Done lines residual Hl Hr E).
    destruct (Anthropic.for_lines lines) as [ys [|]]; cbn; [|rewrite app_nil_r];
      reflexivity.
  - rewrite gemini_read_text. cbn. now rewrite app_nil_r.
  - intros text tail Et Ht. rewrite gemini_read_text. cbn.
    rewrite app_nil_r, Et. now apply gemini_feed_open_tail.
Qed.

(** Two complete lines in two chunks, then a data line cut short. *)
Lemma residual_buffer_is_discarded_witness :
  yielded (OpenAI.read_loop TextDecoder.init []
             [bytes_of (hello_line ++ [NEWLINE] ++ lit "data");
              bytes_of (lit ": [X]" ++ [NEWLINE] ++ world_line)] Done)
  = [JStr (lit "Hello")].
Proof.
  apply (residual_buffer_is_discarded
           [bytes_of (hello_line ++ [NEWLINE] ++ lit "data");
            bytes_of (lit ": [X]" ++ [NEWLINE] ++ world_line)]
           [hello_line; lit "data: [X]"] world_line);
    vm_compute; reflexivity.
Defined.

(** ** C2: validateKey *)

(** Against C2 as stated: on a network that refuses every request the
    Anthropic and the Gemini services accept a well-formed key, and make
    no request at all. *)
Lemma validateKey_without_network_call :
  Anthropic.validateKey (lit "sk-ant-x") unauthorized = ([], true)
  /\ Gemini.validateKey (lit "12345678901") unauthorized = ([], true)
  /\ OpenAI.validateKey (lit "sk-x") unauthorized
     = ([OpenAI.models_request (lit "sk-x")], false).
Proof. vm_compute. repeat split; reflexivity. Qed.

(** C2, amended.  Only the OpenAI service calls the network: a key
    without the prefix [sk-] is refused without a call; otherwise one GET
    of the model list is made, with the key as bearer token, and the
    result is the success status of the response, [false] when the call
    itself fails.  The Anthropic service makes no call and accepts the
    keys that start with [sk-ant-]; the Gemini service makes no call and
    accepts the keys longer than ten code units. *)
Theorem validateKey_by_provider (key : jsstring) (net : network) :
  OpenAI.validateKey key net =
    (if startsWith key (lit "sk-")
     then ([OpenAI.models_request key],
           match net (OpenAI.models_request key) with
           | Normal res => ok res
           | Throw _ => false
           end)
     else ([], false))
  /\ method (OpenAI.models_request key) = lit "GET"
  /\ headers (OpenAI.models_request key)
     = [(lit "Authorization", lit "Bearer " ++ key)]
  /\ Anthropic.validateKey key net = ([], startsWith key (lit "sk-ant-"))
  /\ Gemini.validateKey key net = ([], 10 <? length key).
Proof.
  repeat split.
  unfold OpenAI.validateKey.
  destruct (startsWith key (lit "sk-")); [|reflexivity].
  cbn [negb]. unfold Net.bind, Net.fetch, Net.ret.
  destruct (net (OpenAI.models_request key)); reflexivity.
Qed.

(** ** C9: transport failures *)

(** Against C9 as stated: when the body is missing the error is the fixed
    message [No response body], which carries no status. *)
Lemma missing_body_error_carries_no_status :
  OpenAI.summarize (lit "text") sample_options (fun _ => Normal no_content)
  = ([OpenAI.request (lit "text") sample_options],
     thrown (Error (lit "No response body")))
  /\ includes (lit "No response body") (of_N (status no_content)) = false.
Proof. vm_compute. split; reflexivity. Qed.

Lemma respond_not_ok (name : jsstring)
    (reading : list (list byte) -> stream_end -> run)
    (res : Response) (err : jsstring) :
  ok res = false -> Net.text res = Normal err ->
  respond name reading (Normal res)
  = thrown (Error (name ++ lit " API Error: " ++ of_N (status res)
                   ++ lit " " ++ err)).
Proof. intros H1 H2. unfold respond. now rewrite H1, H2. Qed.

Lemma respond_no_body (name : jsstring)
    (reading : list (list byte) -> stream_end -> run) (res : Response) :
  ok res = true -> stream res = None ->
  respond name reading (Normal res) = thrown (Error (lit "No response body")).
Proof. intros H1 H2. unfold respond. now rewrite H1, H2. Qed.

(** C9, amended.  For each of the three network services: when the
    response has a non-success status and its text can be read, the run
    yields nothing and throws one error whose message is the name of the
    service, [API Error:], the status and the text of the response; when
    the response is successful but has no body, the run yields nothing
    and throws one error with the fixed message [No response body].  A
    run has one end: it is never both completed and failed. *)
Theorem transport_failure_yields_nothing
    (text : jsstring) (options : SummaryOptions) (net : network)
    (res : Response) :
  net (OpenAI.request text options) = Normal res ->
  net (Anthropic.request text options) = Normal res ->
  net (Gemini.request text options) = Normal res ->
  (forall err, ok res = false -> Net.text res = Normal err ->
     snd (OpenAI.summarize text options net)
       = {| yielded := [];
            ended := Threw (Error (lit "OpenAI API Error: " ++ of_N (status res)
                                   ++ lit " " ++ err)) |}
     /\ snd (Anthropic.summarize text options net)
       = {| yielded := [];
            ended := Threw (Error (lit "Anthropic API Error: " ++ of_N (status res)
                                   ++ lit " " ++ err)) |}
     /\ snd (Gemini.summarize text options net)
       = {| yielded := [];
            ended := Threw (Error (lit "Gemini API Error: " ++ of_N (status res)
                                   ++ lit " " ++ err)) |})
  /\ (ok res = true -> stream res = None ->
     snd (OpenAI.summarize text options net)
       = {| yielded := []; ended := Threw (Error (lit "No response body")) |}
     /\ snd (Anthropic.summarize text options net)
       = {| yielded := []; ended := Threw (Error (lit "No response body")) |}
     /\ snd (Gemini.summarize text options net)
       = {| yielded := []; ended := Threw (Error (lit "No response body")) |}).
Proof.
  intros HO HA HG.
  unfold OpenAI.summarize, Anthropic.summarize, Gemini.summarize,
    Net.bind, Net.fetch, Net.ret.
  rewrite HO, HA, HG. cbn [snd].
  split.
  - intros err H1 H2.
    rewrite !(respond_not_ok _ _ res err H1 H2). repeat split.
  - intros H1 H2.
    rewrite !(respond_no_body _ _ res H1 H2). repeat split.
Qed.

Lemma transport_failure_yields_nothing_witness :
  snd (Gemini.summarize (lit "text") sample_options unauthorized)
  = {| yielded := [];
       ended := Threw (Error (lit "Gemini API Error: 401 unauthorized")) |}.
Proof.
  apply (proj1 (transport_failure_yields_nothing
                  (lit "text") sample_options unauthorized
                  {| ok := false; status := 401;
                     text := Normal (lit "unauthorized"); stream := None |}
                  eq_refl eq_refl eq_refl) (lit "unauthorized") eq_refl eq_refl).
Defined.

(** ** C10: the default models *)

(** C10.  When the model of the options is the empty string, each
    network service sends its request with its own default model:
    [gpt-4o-mini] in the body for OpenAI, [claude-3-5-sonnet-20240620]
    in the body for Anthropic, [gemini-1.5-pro] in the address for
    Gemini; and that request is the one request the service makes. *)
Theorem empty_model_falls_back_to_default
    (text : jsstring) (options : SummaryOptions) (net : network) :
  model options = [] ->
  (fst (OpenAI.summarize text options net) = [OpenAI.request text options]
   /\ sent_model (OpenAI.request text options)
      = Normal (JStr (lit "gpt-4o-mini")))
  /\ (fst (Anthropic.summarize text options net) = [Anthropic.request text options]
   /\ sent_model (Anthropic.request text options)
      = Normal (JStr (lit "claude-3-5-sonnet-20240620")))
  /\ (fst (Gemini.summarize text options net) = [Gemini.request text options]
   /\ url (Gemini.request text options)
      = lit "https://generativelanguage.googleapis.com/v1beta/models/"
        ++ lit "gemini-1.5-pro"
        ++ lit ":streamGenerateContent?key=" ++ apiKey options).
Proof.
  intros E.
  assert (Sent : forall name reading req,
             fst ((res <- fetch req ;; ret (respond name reading res)) net)
             = [req]).
  { intros. unfold Net.bind, Net.fetch, Net.ret. now destruct (net req). }
  repeat split; try apply Sent;
    unfold sent_model, OpenAI.request, Anthropic.request, Gemini.request;
    cbn [body url]; rewrite E; reflexivity.
Qed.

Lemma empty_model_falls_back_to_default_witness :
  sent_model (OpenAI.request (lit "text")
                {| language := lit "en"; model := [];
                   customPrompt := None; apiKey := lit "sk-x" |})
  = Normal (JStr (lit "gpt-4o-mini")).
Proof.
  apply (empty_model_falls_back_to_default (lit "text")
           {| language := lit "en"; model := [];
              customPrompt := None; apiKey := lit "sk-x" |}
           unauthorized eq_refl).
Defined.

(** ** C6: the placeholder of the prompt *)

(** C6.  [constructPrompt] calls [replace] with a string pattern, which
    substitutes the first occurrence of the placeholder only.  On a
    custom prompt with two placeholders the second one is sent as it
    is, where substituting at every occurrence gives [fr] twice.  On the
    default template, which holds the placeholder once, the two agree. *)
Theorem constructPrompt_replaces_first_placeholder_only :
  constructPrompt two_placeholders (lit "body")
    = lit "Answer in fr. Title in {{LANGUAGE}}."
      ++ [NEWLINE; NEWLINE] ++ lit "---" ++ [NEWLINE; NEWLINE] ++ lit "body"
  /\ replaceAll (lit "Answer in {{LANGUAGE}}. Title in {{LANGUAGE}}.")
       PLACEHOLDER (lit "fr")
     = lit "Answer in fr. Title in fr."
  /\ replace SYSTEM_PROMPT PLACEHOLDER (lit "fr")
     = replaceAll SYSTEM_PROMPT PLACEHOLDER (lit "fr").
Proof. vm_compute. repeat split; reflexivity. Qed.

(** ** C7: the choice of a model *)




(** ** C8: the debounced refresh *)

(** Against C8 as stated: five edits of the OpenAI key inside the window,
    the user deleting the key one character at a time, trigger no refresh
    at all, because the last key does not pass the gate of the effect. *)
Lemma burst_ending_on_a_refused_key_refreshes_nothing :
  within_window [(0, lit "sk-ab"); (100, lit "sk-a"); (200, lit "sk-");
                 (300, lit "sk"); (400, lit "s")] = true
  /\ App.refreshes App.openai None
       [(0, lit "sk-ab"); (100, lit "sk-a"); (200, lit "sk-");
        (300, lit "sk"); (400, lit "s")] = [].
Proof. vm_compute. split; reflexivity. Qed.

Lemma expire_pending (p : App.Provider) (now : nat) (current : option App.timeout) :
  pending_after now current -> App.expire p now current = ([], current).
Proof.
  destruct current as [t|]; simpl; [|reflexivity].
  intros H. destruct (Nat.leb_spec (App.due t) now); [lia | reflexivity].
Qed.

Lemma gate_not_empty (p : App.Provider) (k : jsstring) :
  App.gate p k = true -> eqb k [] = false.
Proof. unfold App.gate. now destruct (eqb k []). Qed.

Lemma renders_burst (p : App.Provider) (edits : list (nat * jsstring)) :
  forall (previous : option jsstring) (current : option App.timeout)
         (t : nat) (k : jsstring),
    within_window (edits ++ [(t, k)]) = true ->
    each_changes previous (edits ++ [(t, k)]) = true ->
    pending_after (fst (hd (t, k) edits)) current ->
    App.renders p previous current (edits ++ [(t, k)]) =
    if App.gate p k
    then [{| App.at_time := t + 1000; App.provider := p; App.credential := k |}]
    else [].
Proof.
  induction edits as [|[t1 k1] edits IH]; intros previous current t k Hw Hk Hp.
  - cbn [app App.renders]. cbn in Hp.
    cbn [app each_changes] in Hk. apply andb_prop in Hk as [Hk _]. rewrite Hk.
    rewrite (expire_pending p t current Hp). cbn [app].
    unfold App.effect. destruct (App.gate p k) eqn:G; [|reflexivity].
    cbn. unfold App.fetchModels. now rewrite (gate_not_empty p k G).
  - cbn [app App.renders]. cbn in Hp.
    cbn [app each_changes] in Hk. apply andb_prop in Hk as [Hk1 Hk].
    rewrite Hk1, (expire_pending p t1 current Hp). cbn [app].
    apply IH; [|exact Hk|].
    + cbn [app within_window] in Hw.
      destruct (edits ++ [(t, k)]) as [|[t2 k2] rest] eqn:E.
      * now destruct edits.
      * now apply andb_prop in Hw as [_ Hw].
    + assert (Hnext : t1 <= fst (hd (t, k) edits) < t1 + 1000).
      { cbn [app within_window] in Hw.
        destruct edits as [|[t2 k2] edits]; cbn [app hd fst] in *;
          apply andb_prop in Hw as [Hw _]; apply andb_prop in Hw as [H1 H2];
          apply Nat.leb_le in H1; apply Nat.ltb_lt in H2; lia. }
      unfold App.effect. destruct (App.gate p k1); cbn; [lia | trivial].
Qed.

(** A render that does not change the key does not run the effect: the
    timer armed for the key stays as it is. *)
Example unchanged_key_keeps_the_timer :
  App.refreshes App.openai None [(0, lit "sk-abc"); (500, lit "sk-abc")]
  = [{| App.at_time := 1000; App.provider := App.openai;
        App.credential := lit "sk-abc" |}].
Proof. reflexivity. Qed.

(** C8, amended.  For each provider, every change of the key clears the
    pending timer, and arms a new one of 1000 ms only when the new key
    passes the gate of the effect (a key that is not empty and starts
    with [sk-] for OpenAI, with [sk-ant-] for Anthropic, or is longer
    than ten code units for Gemini); a render with the key it had before
    does not run the effect.  So a burst of changes of the key, each less
    than 1000 ms after the one before, five of them in particular,
    triggers exactly one refresh, 1000 ms after the last change and with
    the last key, when that key passes the gate, and none when it does
    not. *)
Theorem debounce_refreshes_once_for_the_last_key
    (p : App.Provider) (edits : list (nat * jsstring)) (t : nat) (k : jsstring) :
  within_window (edits ++ [(t, k)]) = true ->
  each_changes None (edits ++ [(t, k)]) = true ->
  App.refreshes p None (edits ++ [(t, k)]) =
  if App.gate p k
  then [{| App.at_time := t + 1000; App.provider := p; App.credential := k |}]
  else [].
Proof.
  intros Hw Hk. apply renders_burst; [assumption | assumption | exact I].
Qed.

(** Five changes of the Gemini key, 200 ms apart. *)
Lemma debounce_refreshes_once_for_the_last_key_witness :
  App.refreshes App.gemini None
    ([(0, lit "AIzaSyA-012"); (200, lit "AIzaSyA-0123"); (400, lit "AIzaSyA-01234");
      (600, lit "AIzaSyA-012345")] ++ [(800, lit "AIzaSyA-0123456")])
  = [{| App.at_time := 1800; App.provider := App.gemini;
        App.credential := lit "AIzaSyA-0123456" |}].
Proof.
  apply (debounce_refreshes_once_for_the_last_key App.gemini
           [(0, lit "AIzaSyA-012"); (200, lit "AIzaSyA-0123");
            (400, lit "AIzaSyA-01234"); (600, lit "AIzaSyA-012345")]
           800 (lit "AIzaSyA-0123456") eq_refl eq_refl).
Defined.

(* ================================================================== *)
(** * Further properties of the code *)
(* ================================================================== *)

(** ** Strings *)

Lemma eqb_eq (a b : jsstring) : eqb a b = true <-> a = b.
Proof.
  revert b; induction a as [|x a IH]; intros [|y b]; simpl;
    try (split; [discriminate | discriminate]); [tauto|].
  rewrite andb_true_iff, N.eqb_eq, IH.
  split; [intros [-> ->]; reflexivity | intros [= -> ->]; tauto].
Qed.

Lemma eqb_refl (a : jsstring) : eqb a a = true.
Proof. now apply eqb_eq. Qed.


Lemma search_absent (s p : jsstring) (pos : nat) :
  includes s p = false -> search s p pos = None.
Proof.
  revert pos; induction s as [|x s IH]; intros pos; cbn [includes search].
  - rewrite orb_false_r. now intros ->.
  - intros [H1 H2]%orb_false_elim. rewrite H1. now apply IH.
Qed.

Lemma GetSubstitution_plain (matched before after repl : jsstring) :
  existsb (N.eqb DOLLAR) repl = false ->
  GetSubstitution matched before after repl = repl.
Proof.
  induction repl as [|c r IH]; cbn [GetSubstitution existsb]; [reflexivity|].
  intros [H1 H2]%orb_false_elim.
  rewrite N.eqb_sym, H1. now rewrite (IH H2).
Qed.

(** ** The prompt *)

(** X1.  A template that does not hold the placeholder goes into the
    prompt as it is, whatever the language: the prompt is the template,
    the separator and the content. *)
Theorem prompt_without_placeholder_is_verbatim
    (options : SummaryOptions) (content : jsstring) :
  includes (or_else (customPrompt options) SYSTEM_PROMPT) PLACEHOLDER = false ->
  constructPrompt options content
  = or_else (customPrompt options) SYSTEM_PROMPT
    ++ [NEWLINE; NEWLINE] ++ lit "---" ++ [NEWLINE; NEWLINE] ++ content.
Proof.
  intros H. unfold constructPrompt, replace.
  now rewrite (search_absent _ _ 0 H).
Qed.

Lemma prompt_without_placeholder_is_verbatim_witness :
  constructPrompt
    {| language := lit "fr"; model := [];
       customPrompt := Some (lit "Summarize in three bullet points.");
       apiKey := [] |} (lit "body")
  = lit "Summarize in three bullet points."
    ++ [NEWLINE; NEWLINE] ++ lit "---" ++ [NEWLINE; NEWLINE] ++ lit "body".
Proof.
  apply (prompt_without_placeholder_is_verbatim
           {| language := lit "fr"; model := [];
              customPrompt := Some (lit "Summarize in three bullet points.");
              apiKey := [] |} (lit "body") eq_refl).
Defined.

(** X2.  When the first placeholder of the template comes right after
    [before], and the language holds no dollar sign, that placeholder is
    replaced by the language, letter for letter, and the text after it is
    kept as it is.  This is the case of the default template with any
    language tag. *)
Theorem prompt_substitutes_first_placeholder
    (options : SummaryOptions) (content before rest : jsstring) :
  or_else (customPrompt options) SYSTEM_PROMPT = before ++ PLACEHOLDER ++ rest ->
  search (before ++ PLACEHOLDER ++ rest) PLACEHOLDER 0 = Some (length before) ->
  existsb (N.eqb DOLLAR) (language options) = false ->
  constructPrompt options content
  = before ++ language options ++ rest
    ++ [NEWLINE; NEWLINE] ++ lit "---" ++ [NEWLINE; NEWLINE] ++ content.
Proof.
  intros E S D. unfold constructPrompt, replace. rewrite E, S.
  rewrite (GetSubstitution_plain _ _ _ _ D).
  rewrite firstn_app, firstn_all, Nat.sub_diag, firstn_O, app_nil_r.
  rewrite skipn_app, skipn_all2 by lia.
  replace (length before + length PLACEHOLDER - length before)
    with (length PLACEHOLDER) by lia.
  rewrite skipn_app, skipn_all, Nat.sub_diag, skipn_O.
  cbn [app]. now rewrite <- !app_assoc.
Qed.

(** The default template, for the language tag [pt-BR]. *)
Lemma prompt_substitutes_first_placeholder_witness :
  constructPrompt
    {| language := lit "pt-BR"; model := []; customPrompt := None; apiKey := [] |}
    (lit "body")
  = firstn 277 SYSTEM_PROMPT ++ lit "pt-BR" ++ lit "." ++ [NEWLINE]
    ++ [NEWLINE; NEWLINE] ++ lit "---" ++ [NEWLINE; NEWLINE] ++ lit "body".
Proof.
  apply (prompt_substitutes_first_placeholder
           {| language := lit "pt-BR"; model := []; customPrompt := None;
              apiKey := [] |}
           (lit "body") (firstn 277 SYSTEM_PROMPT) (lit "." ++ [NEWLINE])
           eq_refl eq_refl eq_refl).
Defined.

(** ** The choice of a model *)

Lemma find_In {A : Type} (f : A -> bool) (l : list A) (x : A) :
  find f l = Some x -> In x l /\ f x = true.
Proof.
  induction l as [|y l IH]; simpl; [discriminate|].
  destruct (f y) eqn:E.
  - intros [= <-]. tauto.
  - intros H. destruct (IH H). tauto.
Qed.

Lemma has_In (models : list jsstring) (x : jsstring) :
  App.has models x = true -> In x models.
Proof.
  unfold App.has. rewrite existsb_exists. intros (y & Hy & E).
  apply eqb_eq in E. now subst.
Qed.

Lemma pickBestModel_listed (models : list jsstring) (provider : jsstring) :
  models <> [] ->
  eqb provider (lit "chrome") = false ->
  App.inherited provider = false ->
  exists m, In m models /\ App.pickBestModel models provider = Normal m.
Proof.
  intros Hne Hc Hin.
  destruct models as [|first rest]; [contradiction|].
  unfold App.pickBestModel, App.preferredList. rewrite Hc, Hin.
  destruct (App.own App.preferences provider) as [prefs|].
  - destruct (find (App.has (first :: rest)) prefs) as [pref|] eqn:F.
    + apply find_In in F as [_ F]. apply has_In in F. now exists pref.
    + destruct (filter _ (first :: rest)) as [|c cs] eqn:E.
      * exists first. split; [now left | reflexivity].
      * exists c. split; [|reflexivity].
        assert (H : In c (c :: cs)) by now left.
        rewrite <- E in H. now apply filter_In in H.
  - cbn [find].
    destruct (filter _ (first :: rest)) as [|c cs] eqn:E.
    + exists first. split; [now left | reflexivity].
    + exists c. split; [|reflexivity].
      assert (H : In c (c :: cs)) by now left.
      rewrite <- E in H. now apply filter_In in H.
Qed.

(** X3.  For a model list that is not empty and a provider other than the
    on-device one (and not named like a member of [Object.prototype]),
    the model [pickBestModel] returns is one of the list: the side panel
    never selects a model the key cannot use. *)
Theorem pickBestModel_returns_a_listed_model
    (models : list jsstring) (provider : jsstring) :
  models <> [] ->
  eqb provider (lit "chrome") = false ->
  App.inherited provider = false ->
  exists m, In m models /\ App.pickBestModel models provider = Normal m.
Proof. apply pickBestModel_listed. Qed.

Lemma pickBestModel_returns_a_listed_model_witness :
  exists m, In m [lit "gemini-2.0-pro"; lit "gemini-2.0-flash"]
            /\ App.pickBestModel [lit "gemini-2.0-pro"; lit "gemini-2.0-flash"]
                 (lit "gemini") = Normal m.
Proof.
  apply (pickBestModel_returns_a_listed_model
           [lit "gemini-2.0-pro"; lit "gemini-2.0-flash"] (lit "gemini")
           ltac:(discriminate) eq_refl eq_refl).
Defined.

(** ** The debounced refresh, beyond a single burst *)

Lemma fetchModels_gate (p : App.Provider) (now : nat) (k : jsstring) :
  App.gate p k = true ->
  App.fetchModels now p k
  = [{| App.at_time := now; App.provider := p; App.credential := k |}].
Proof. intros G. unfold App.fetchModels. now rewrite (gate_not_empty p k G). Qed.

Lemma renders_origin (p : App.Provider) (edits : list (nat * jsstring)) :
  forall previous current,
    (forall tm, current = Some tm -> App.gate p (App.key tm) = true) ->
    Forall (fun r => (exists tm, current = Some tm /\ from_timer p tm r)
                     \/ from_edit p edits r)
           (App.renders p previous current edits).
Proof.
  induction edits as [|[t k] edits IH]; intros previous current Hc.
  - cbn [App.renders]. destruct current as [tm|]; [|constructor].
    rewrite (fetchModels_gate p _ _ (Hc tm eq_refl)).
    constructor; [|constructor]. left. exists tm. repeat split.
  - cbn [App.renders].
    destruct (App.expire p t current) as [calls current'] eqn:Ex.
    assert (Hkept : current' = None \/ current' = current).
    { unfold App.expire in Ex. destruct current as [tm|].
      - destruct (App.due tm <=? t); injection Ex as _ <-; auto.
      - injection Ex as _ <-. auto. }
    apply Forall_app. split.
    + unfold App.expire in Ex. destruct current as [tm|].
      2:{ injection Ex as <- _. constructor. }
      destruct (App.due tm <=? t).
      2:{ injection Ex as <- _. constructor. }
      rewrite (fetchModels_gate p _ _ (Hc tm eq_refl)) in Ex.
      injection Ex as <- _.
      constructor; [|constructor]. left. exists tm. repeat split.
    + set (next := if App.changed previous k then App.effect p t k current'
                   else current').
      assert (Hnew : forall tm, next = Some tm -> App.gate p (App.key tm) = true).
      { unfold next, App.effect. destruct (App.changed previous k).
        - destruct (App.gate p k) eqn:G; [|discriminate]. now intros tm [= <-].
        - intros tm E. apply Hc.
          destruct Hkept as [-> | ->]; [discriminate | exact E]. }
      specialize (IH (Some k) _ Hnew).
      eapply Forall_impl; [|exact IH].
      intros r [(tm & E & Htm)|(Hp & Hg & t' & Hin & Ht)].
      * unfold next, App.effect in E. destruct (App.changed previous k).
        -- right. destruct (App.gate p k) eqn:G; [|discriminate].
           injection E as <-. destruct Htm as (H1 & H2 & H3). cbn in *.
           repeat split; [assumption | now rewrite H3 |].
           exists t. rewrite H3. split; [now left | assumption].
        -- left. exists tm. split; [|exact Htm].
           destruct Hkept as [-> | ->]; [discriminate | exact E].
      * right. repeat split; try assumption.
        exists t'. split; [now right | assumption].
Qed.

(** X4.  Whatever the edits of a key are, and however they are spaced,
    every refresh the effect triggers is made for that provider, with a
    key that passes its gate, and exactly 1000 ms after an edit that set
    this key: no request is ever made with an empty or malformed key. *)
Theorem refresh_only_with_a_key_that_passes_the_gate
    (p : App.Provider) (edits : list (nat * jsstring)) :
  Forall (from_edit p edits) (App.refreshes p None edits).
Proof.
  eapply Forall_impl; [|apply (renders_origin p edits None None); discriminate].
  intros r [(tm & E & _)|H]; [discriminate | exact H].
Qed.

Lemma renders_spaced (p : App.Provider) (edits : list (nat * jsstring)) :
  forall previous current,
    spaced_out edits = true ->
    each_changes previous edits = true ->
    (forall tm, current = Some tm ->
       App.gate p (App.key tm) = true
       /\ App.due tm < fst (hd (S (App.due tm), []) edits)) ->
    App.renders p previous current edits =
    match current with
    | Some tm => [{| App.at_time := App.due tm; App.provider := p;
                     App.credential := App.key tm |}]
    | None => []
    end ++ flat_map (refresh_of p) edits.
Proof.
  induction edits as [|[t k] edits IH]; intros previous current Hs Hk Hc.
  - cbn [App.renders flat_map]. rewrite app_nil_r.
    destruct current as [tm|]; [|reflexivity].
    now rewrite (fetchModels_gate p _ _ (proj1 (Hc tm eq_refl))).
  - cbn [App.renders flat_map].
    cbn [each_changes] in Hk. apply andb_prop in Hk as [Hk1 Hk]. rewrite Hk1.
    assert (Hrest : spaced_out edits = true).
    { cbn [spaced_out] in Hs. destruct edits as [|[t2 k2] edits']; [reflexivity|].
      now apply andb_prop in Hs. }
    assert (Hnext : t + 1000 < fst (hd (S (t + 1000), []) edits)).
    { cbn [spaced_out] in Hs. destruct edits as [|[t2 k2] edits']; cbn; [lia|].
      apply andb_prop in Hs as [Hs _]. now apply Nat.ltb_lt in Hs. }
    assert (Hexp : App.expire p t current =
                   (match current with
                    | Some tm => [{| App.at_time := App.due tm; App.provider := p;
                                     App.credential := App.key tm |}]
                    | None => []
                    end, None)).
    { unfold App.expire. destruct current as [tm|]; [|reflexivity].
      destruct (Hc tm eq_refl) as [G D]. cbn in D.
      assert (D' : (App.due tm <=? t) = true) by (apply Nat.leb_le; lia).
      rewrite D'. now rewrite (fetchModels_gate p _ _ G). }
    rewrite Hexp. f_equal.
    rewrite (IH _ _ Hrest Hk).
    + unfold App.effect, refresh_of. now destruct (App.gate p k).
    + unfold App.effect. intros tm E.
      destruct (App.gate p k) eqn:G; [|discriminate].
      injection E as <-. cbn. split; [assumption|].
      destruct edits as [|[t2 k2] edits']; cbn in *; lia.
Qed.

(** X5.  Changes of the key that are each more than 1000 ms after the
    one before are not collapsed: every change whose key passes the gate
    triggers its own refresh, 1000 ms after it and with its key, in the
    order of the changes; the changes whose key does not pass trigger
    none. *)
Theorem spaced_edits_each_refresh
    (p : App.Provider) (edits : list (nat * jsstring)) :
  spaced_out edits = true ->
  each_changes None edits = true ->
  App.refreshes p None edits = flat_map (refresh_of p) edits.
Proof.
  intros Hs Hk. unfold App.refreshes.
  rewrite (renders_spaced p edits None None Hs Hk); [reflexivity|].
  discriminate.
Qed.

Lemma spaced_edits_each_refresh_witness :
  App.refreshes App.anthropic None
    [(0, lit "sk-ant-a"); (1500, lit "sk-"); (3000, lit "sk-ant-b")]
  = [{| App.at_time := 1000; App.provider := App.anthropic;
        App.credential := lit "sk-ant-a" |};
     {| App.at_time := 4000; App.provider := App.anthropic;
        App.credential := lit "sk-ant-b" |}].
Proof.
  apply (spaced_edits_each_refresh App.anthropic
           [(0, lit "sk-ant-a"); (1500, lit "sk-"); (3000, lit "sk-ant-b")]
           eq_refl eq_refl).
Defined.

(** ** Lines the event-stream decoders pass over *)

Lemma openai_noise_skipped (l : jsstring) (rest : list jsstring) :
  openai_noise l = true ->
  OpenAI.for_lines (l :: rest) = OpenAI.for_lines rest.
Proof.
  unfold openai_noise. intros [Hd H]%andb_prop.
  apply negb_true_iff in Hd. cbn [OpenAI.for_lines]. rewrite Hd.
  destruct (eqb (trim l) []); [reflexivity|].
  destruct (startsWith l (lit "data: ")); [|reflexivity].
  cbn [negb orb] in H. unfold OpenAI.data_line.
  destruct (JSON.parse (slice l 6)); [discriminate|].
  now destruct (OpenAI.for_lines rest).
Qed.

Lemma anthropic_noise_skipped (l : jsstring) (rest : list jsstring) :
  anthropic_noise l = true ->
  Anthropic.for_lines (l :: rest) = Anthropic.for_lines rest.
Proof.
  unfold anthropic_noise. intros H. cbn [Anthropic.for_lines].
  destruct (eqb (trim l) []); [reflexivity|].
  destruct (startsWith l (lit "event: ")); [reflexivity|].
  destruct (startsWith l (lit "data: ")); [|reflexivity].
  cbn [negb orb] in H. apply andb_prop in H as [H1 H2].
  apply negb_true_iff in H1. rewrite H1.
  unfold Anthropic.data_line.
  destruct (JSON.parse (slice l 6)); [discriminate|].
  now destruct (Anthropic.for_lines rest).
Qed.

Lemma one_line_middle (l1 l2 : list jsstring) (l : jsstring) :
  forallb one_line (l1 ++ l :: l2) = true -> forallb one_line (l1 ++ l2) = true.
Proof.
  rewrite !forallb_app. cbn [forallb].
  intros [H1 [_ H2]%andb_prop]%andb_prop. now rewrite H1, H2.
Qed.

(** X6.  A line of an OpenAI body that is not the sentinel and carries no
    parsable data (a blank line, a comment, an event name, a data line
    whose payload is not JSON) changes nothing: the run on the body is
    the run on the same body without that line.  In particular malformed
    JSON does not end the stream. *)
Theorem openai_noise_line_changes_nothing
    (chunks chunks' : list (list byte)) (fin : stream_end)
    (before after : list jsstring) (l residual : jsstring) :
  forallb one_line (before ++ l :: after) = true ->
  one_line residual = true ->
  openai_noise l = true ->
  decoded chunks = unlines (before ++ l :: after) ++ residual ->
  decoded chunks' = unlines (before ++ after) ++ residual ->
  OpenAI.read_loop TextDecoder.init [] chunks fin
  = OpenAI.read_loop TextDecoder.init [] chunks' fin.
Proof.
  intros Hl Hr Hn E E'. unfold OpenAI.read_loop.
  rewrite (read_lines_residual OpenAI.for_lines openai_for_lines_app eq_refl
             chunks fin _ residual Hl Hr E).
  rewrite (read_lines_residual OpenAI.for_lines openai_for_lines_app eq_refl
             chunks' fin _ residual (one_line_middle _ _ _ Hl) Hr E').
  rewrite !openai_for_lines_app, (openai_noise_skipped l after Hn).
  reflexivity.
Qed.

Lemma openai_noise_line_changes_nothing_witness :
  OpenAI.read_loop TextDecoder.init []
    [bytes_of (hello_line ++ [NEWLINE] ++ lit "data: {'oops");
     bytes_of ([NEWLINE] ++ world_line ++ [NEWLINE])]
    Done
  = OpenAI.read_loop TextDecoder.init []
      [bytes_of (hello_line ++ [NEWLINE] ++ world_line ++ [NEWLINE])] Done.
Proof.
  apply (openai_noise_line_changes_nothing
           _ _ Done [hello_line] [world_line] (lit "data: {'oops") []);
    vm_compute; reflexivity.
Defined.

(** X7.  A line of an Anthropic body that is blank, names an event, is
    not a data line, or is a data line other than the sentinel whose
    payload is not JSON, changes nothing: the run on the body is the run
    on the same body without that line. *)
Theorem anthropic_noise_line_changes_nothing
    (chunks chunks' : list (list byte)) (fin : stream_end)
    (before after : list jsstring) (l residual : jsstring) :
  forallb one_line (before ++ l :: after) = true ->
  one_line residual = true ->
  anthropic_noise l = true ->
  decoded chunks = unlines (before ++ l :: after) ++ residual ->
  decoded chunks' = unlines (before ++ after) ++ residual ->
  Anthropic.read_loop TextDecoder.init [] chunks fin
  = Anthropic.read_loop TextDecoder.init [] chunks' fin.
Proof.
  intros Hl Hr Hn E E'. unfold Anthropic.read_loop.
  rewrite (read_lines_residual Anthropic.for_lines anthropic_for_lines_app
             eq_refl chunks fin _ residual Hl Hr E).
  rewrite (read_lines_residual Anthropic.for_lines anthropic_for_lines_app
             eq_refl chunks' fin _ residual (one_line_middle _ _ _ Hl) Hr E').
  rewrite !anthropic_for_lines_app, (anthropic_noise_skipped l after Hn).
  reflexivity.
Qed.

Lemma anthropic_noise_line_changes_nothing_witness :
  Anthropic.read_loop TextDecoder.init []
    [bytes_of (lit "event: ping" ++ [NEWLINE]
               ++ dq "data: {'type':'content_block_delta','delta':{'type':'text_delta','text':'Hi'}}"
               ++ [NEWLINE])]
    Done
  = Anthropic.read_loop TextDecoder.init []
      [bytes_of (dq "data: {'type':'content_block_delta','delta':{'type':'text_delta','text':'Hi'}}"
                 ++ [NEWLINE])] Done.
Proof.
  apply (anthropic_noise_line_changes_nothing
           _ _ Done []
           [dq "data: {'type':'content_block_delta','delta':{'type':'text_delta','text':'Hi'}}"]
           (lit "event: ping") []);
    vm_compute; reflexivity.
Defined.

(** ** The sentinel of the Anthropic stream *)

(** X8.  Whenever an Anthropic body holds, after some complete lines, the
    line [data: [DONE]], the run ends there: it yields what the lines
    before yield and completes, whatever text and chunks follow and
    however the body ends. *)
Theorem anthropic_done_ends_the_stream
    (chunks more : list (list byte)) (fin : stream_end)
    (lines : list jsstring) (tail : jsstring) :
  forallb one_line lines = true ->
  decoded chunks = unlines lines ++ lit "data: [DONE]" ++ [NEWLINE] ++ tail ->
  Anthropic.read_loop TextDecoder.init [] (chunks ++ more) fin
  = {| yielded := fst (Anthropic.for_lines lines); ended := Finished |}.
Proof.
  intros Hl E.
  assert (R : Anthropic.for_lines (lines ++ [lit "data: [DONE]"])
              = (fst (Anthropic.for_lines lines), true)).
  { rewrite anthropic_for_lines_app.
    destruct (Anthropic.for_lines lines) as [ys [|]]; [reflexivity|].
    cbn. now rewrite app_nil_r. }
  unfold Anthropic.read_loop.
  rewrite (read_lines_returned Anthropic.for_lines anthropic_for_lines_app
             eq_refl chunks more fin (lines ++ [lit "data: [DONE]"]) tail).
  - now rewrite R.
  - rewrite forallb_app, Hl. reflexivity.
  - now rewrite R.
  - rewrite E, unlines_snoc, <- !app_assoc. reflexivity.
Qed.

Lemma anthropic_done_ends_the_stream_witness :
  Anthropic.read_loop TextDecoder.init []
    ([bytes_of (lit "event: stop" ++ [NEWLINE] ++ lit "data: [DONE]" ++ [NEWLINE]
                ++ lit "data: more")]
     ++ [bytes_of [NEWLINE]])
    (ReadFailed (lit "connection lost"))
  = {| yielded := []; ended := Finished |}.
Proof.
  apply (anthropic_done_ends_the_stream
           _ _ _ [lit "event: stop"] (lit "data: more"));
    vm_compute; reflexivity.
Defined.

(** ** What the OpenAI and Gemini decoders never yield *)

Lemma openai_data_line_truthy (payload : jsstring) :
  Forall truthy (OpenAI.data_line payload).
Proof.
  unfold OpenAI.data_line.
  destruct (JSON.parse payload) as [json|]; [|constructor].
  destruct (Value.Get json _) as [choices|]; [|constructor].
  destruct (Value.Get choices _) as [first|]; [|constructor].
  destruct (Value.ToBoolean _) eqn:E; constructor; [exact E | constructor].
Qed.

Lemma openai_for_lines_truthy (lines : list jsstring) :
  Forall truthy (fst (OpenAI.for_lines lines)).
Proof.
  induction lines as [|l lines IH]; cbn [OpenAI.for_lines]; [constructor|].
  destruct (eqb (trim l) []); [exact IH|].
  destruct (eqb (trim l) _); [constructor|].
  destruct (startsWith l _); [|exact IH].
  destruct (OpenAI.for_lines lines) as [ys r]. cbn [fst] in *.
  apply Forall_app. split; [apply openai_data_line_truthy | exact IH].
Qed.

Lemma gemini_object_text_truthy (jsonStr : jsstring) :
  Forall truthy (Gemini.object_text jsonStr).
Proof.
  unfold Gemini.object_text.
  destruct (JSON.parse jsonStr) as [json|]; [|constructor].
  destruct (Value.Get json _) as [candidates|]; [|constructor].
  destruct (Value.ToBoolean _) eqn:E; constructor; [exact E | constructor].
Qed.

Lemma gemini_scan_truthy (buffer : jsstring) (fuel : nat) :
  forall cursor, Forall truthy (fst (Gemini.scan buffer fuel cursor)).
Proof.
  induction fuel as [|fuel IH]; intros cursor; cbn [Gemini.scan]; [constructor|].
  destruct (negb _); [constructor|].
  destruct (indexOf buffer LBRACE cursor) as [start|]; [|constructor].
  destruct (Gemini.find_end _ _ _ _ _) as [e|]; [|constructor].
  specialize (IH (e + 1)).
  destruct (Gemini.scan buffer fuel (e + 1)) as [ys c]. cbn [fst] in *.
  apply Forall_app. split; [apply gemini_object_text_truthy | exact IH].
Qed.

Lemma at_end_yields_nothing (fin : stream_end) : yielded (at_end fin) = [].
Proof. now destruct fin. Qed.

(** X9.  Whatever the body is, every value the OpenAI decoder and the
    Gemini decoder yield counts as true: they never yield an empty
    string, [null], [undefined], [false] or zero. *)
Theorem openai_and_gemini_yield_only_truthy_values
    (chunks : list (list byte)) (fin : stream_end) :
  Forall truthy (yielded (OpenAI.read_loop TextDecoder.init [] chunks fin))
  /\ Forall truthy (yielded (Gemini.read_loop TextDecoder.init [] chunks fin)).
Proof.
  split.
  - unfold OpenAI.read_loop.
    rewrite (read_lines_text OpenAI.for_lines openai_for_lines_app eq_refl).
    pose proof (openai_for_lines_truthy
                  (fst (pop (split NEWLINE (decoded chunks))))) as H.
    destruct (OpenAI.for_lines _) as [ys [|]]; cbn [fst] in H; cbn.
    + exact H.
    + now rewrite at_end_yields_nothing, app_nil_r.
  - rewrite gemini_read_text. cbn.
    rewrite at_end_yields_nothing, app_nil_r.
    unfold Gemini.feed.
    pose proof (gemini_scan_truthy ([] ++ decoded chunks)
                  (S (length ([] ++ decoded chunks))) 0) as H.
    now destruct (Gemini.scan _ _ 0).
Qed.

(** ** Braces inside a quoted string *)

Lemma charAt_skipn (buffer r : jsstring) (i : nat) (c : codeunit) :
  skipn i buffer = c :: r -> charAt buffer i = Some c.
Proof.
  intros E. unfold charAt.
  rewrite <- (Nat.add_0_r i), <- nth_error_skipn, E. reflexivity.
Qed.

Lemma find_end_inside (buffer : jsstring) (fuel i : nat) (bc : Z) (c : codeunit) :
  charAt buffer i = Some c -> N.eqb c QUOTE = false ->
  Gemini.find_end buffer (S fuel) i bc true
  = Gemini.find_end buffer fuel (S i) bc true.
Proof. intros E Hc. cbn [Gemini.find_end]. now rewrite E, Hc. Qed.

Lemma find_end_closing (buffer : jsstring) (fuel i : nat) (bc : Z) :
  charAt buffer i = Some QUOTE ->
  Gemini.not_backslash (charBefore buffer i) = true ->
  Gemini.find_end buffer (S fuel) i bc true
  = Gemini.find_end buffer fuel (S i) bc false.
Proof. intros E Hb. cbn [Gemini.find_end]. now rewrite E, Hb. Qed.

(** X10.  In the scan for the closing brace, a quoted string that holds
    no quote and whose closing quote does not follow a backslash is passed
    over as a whole: from inside the string at position [i], the scan
    resumes after the closing quote, outside the string and with the same
    brace count, whatever braces the string holds. *)
Theorem braces_inside_a_plain_string_are_not_counted
    (buffer s rest : jsstring) :
  forall (fuel i : nat) (braceCount : Z),
    skipn i buffer = s ++ QUOTE :: rest ->
    existsb (N.eqb QUOTE) s = false ->
    Gemini.not_backslash (charBefore buffer (i + length s)) = true ->
    Gemini.find_end buffer (S (length s) + fuel) i braceCount true
    = Gemini.find_end buffer fuel (i + S (length s)) braceCount false.
Proof.
  induction s as [|c s IH]; intros fuel i bc E Hq Hb.
  - cbn [length Nat.add app] in *. rewrite Nat.add_0_r in Hb.
    rewrite (find_end_closing buffer fuel i bc (charAt_skipn _ _ _ _ E) Hb).
    now rewrite Nat.add_1_r.
  - cbn [existsb] in Hq. apply orb_false_elim in Hq as [Hc Hq].
    rewrite N.eqb_sym in Hc.
    change (S (length (c :: s)) + fuel) with (S (S (length s) + fuel)).
    rewrite (find_end_inside buffer _ i bc c (charAt_skipn _ _ _ _ E) Hc).
    rewrite (IH fuel (S i) bc).
    + f_equal. cbn [length]. lia.
    + replace (S i) with (1 + i) by lia.
      rewrite <- skipn_skipn, E. reflexivity.
    + exact Hq.
    + replace (S i + length s) with (i + length (c :: s))
        by (cbn [length]; lia).
      exact Hb.
Qed.

(** The string [a { b } c] of the payload of the specification, which
    starts at position 45. *)
Lemma braces_inside_a_plain_string_are_not_counted_witness :
  Gemini.find_end spec_payload_C (S (length (lit "a { b } c")) + 7) 45 4 true
  = Gemini.find_end spec_payload_C 7 (45 + S (length (lit "a { b } c"))) 4 false.
Proof.
  apply (braces_inside_a_plain_string_are_not_counted
           spec_payload_C (lit "a { b } c") (dq "}]}}]}") 7 45 4
           eq_refl eq_refl eq_refl).
Defined.

(** ** Text between the objects of a Gemini body *)

Lemma find_unit_absent (c : codeunit) (s : jsstring) :
  existsb (N.eqb c) s = false -> find_unit c s = None.
Proof.
  induction s as [|x s IH]; cbn [existsb find_unit]; [reflexivity|].
  intros [H1 H2]%orb_false_elim. rewrite N.eqb_sym, H1. now rewrite (IH H2).
Qed.

Lemma find_unit_skip (c : codeunit) (g t : jsstring) :
  existsb (N.eqb c) g = false ->
  find_unit c (g ++ t) = option_map (Nat.add (length g)) (find_unit c t).
Proof.
  induction g as [|x g IH]; cbn [existsb find_unit app length].
  - intros _. now destruct (find_unit c t).
  - intros [H1 H2]%orb_false_elim. rewrite N.eqb_sym, H1, (IH H2).
    now destruct (find_unit c t).
Qed.

Lemma scan_all_leading_text (g t : jsstring) :
  existsb (N.eqb LBRACE) g = false ->
  fst (scan_all (g ++ t) 0) = fst (scan_all t 0).
Proof.
  intros Hg.
  rewrite (scan_all_eq (g ++ t) 0), (scan_all_eq t 0).
  unfold indexOf. rewrite !skipn_O, (find_unit_skip LBRACE g t Hg).
  destruct (find_unit LBRACE t) as [start|] eqn:Es.
  2:{ cbn [option_map]. destruct (negb _), (negb _); reflexivity. }
  pose proof (find_unit_bounds _ _ _ Es) as [Hs Hch].
  assert (E1 : (0 <? length (g ++ t)) = true)
    by (apply Nat.ltb_lt; rewrite length_app; lia).
  assert (E2 : (0 <? length t) = true) by (apply Nat.ltb_lt; lia).
  rewrite E1, E2. cbn [negb option_map]. rewrite !Nat.add_0_l.
  assert (Sk : skipn (length g) (g ++ t) = t).
  { rewrite skipn_app, skipn_all, Nat.sub_diag. reflexivity. }
  pose proof (find_end_shift_start (g ++ t) (length g) start) as Sh.
  rewrite Sk in Sh. rewrite (Sh Hch).
  destruct (Gemini.find_end t _ start 0 false) as [e|]; cbn [option_map];
    [|reflexivity].
  rewrite substring_shift, Sk.
  replace (length g + e + 1) with (length g + (e + 1)) by lia.
  rewrite (scan_all_shift (g ++ t) (length g) (length (g ++ t)) (e + 1)) by lia.
  rewrite Sk. now destruct (scan_all t (e + 1)).
Qed.

(** X11.  The text of a Gemini body before its first opening brace (the
    bracket that opens the array, white space, commas) plays no part:
    the run on the body is the run on the body without that text. *)
Theorem gemini_leading_text_is_ignored
    (chunks chunks' : list (list byte)) (fin : stream_end) (g : jsstring) :
  existsb (N.eqb LBRACE) g = false ->
  decoded chunks = g ++ decoded chunks' ->
  Gemini.read_loop TextDecoder.init [] chunks fin
  = Gemini.read_loop TextDecoder.init [] chunks' fin.
Proof.
  intros Hg E. rewrite !gemini_read_text, !gemini_feed_eq, E. cbn [app].
  pose proof (scan_all_leading_text g (decoded chunks') Hg) as H.
  destruct (scan_all (g ++ decoded chunks') 0) as [ys c].
  destruct (scan_all (decoded chunks') 0) as [ys' c'].
  cbn [fst] in *. now subst.
Qed.

Lemma gemini_leading_text_is_ignored_witness :
  Gemini.read_loop TextDecoder.init []
    [bytes_of (lit "[" ++ [NEWLINE]); bytes_of spec_payload_C] Done
  = Gemini.read_loop TextDecoder.init [] [bytes_of spec_payload_C] Done.
Proof.
  apply (gemini_leading_text_is_ignored _ _ Done (lit "[" ++ [NEWLINE]));
    vm_compute; reflexivity.
Defined.

(** ** Listing the models of a key *)

Lemma listed_no_list_openai (r : completion Response) (lc : JSArray.collation) :
  no_list (lit "data") r = true ->
  sorted_or_empty lc (OpenAI.listed r) = Some [].
Proof.
  intros H. unfold no_list in H. unfold OpenAI.listed.
  destruct r as [res|e]; [|reflexivity].
  destruct (ok res); cbn [negb orb] in *; [|reflexivity].
  destruct (json res) as [data|e]; [|reflexivity].
  destruct (Value.Get data (lit "data")) as [[]|e]; try reflexivity.
  discriminate.
Qed.

Lemma listed_no_list_anthropic (r : completion Response) (lc : JSArray.collation) :
  no_list (lit "data") r = true ->
  sorted_or_empty lc (Anthropic.listed r) = Some [].
Proof.
  intros H. unfold no_list in H. unfold Anthropic.listed.
  destruct r as [res|e]; [|reflexivity].
  destruct (ok res); cbn [negb orb] in *; [|reflexivity].
  destruct (json res) as [data|e]; [|reflexivity].
  destruct (Value.Get data (lit "data")) as [[]|e]; try reflexivity.
  discriminate.
Qed.

Lemma listed_no_list_gemini (r : completion Response) (lc : JSArray.collation) :
  no_list (lit "models") r = true ->
  sorted_or_empty lc (Gemini.listed r) = Some [].
Proof.
  intros H. unfold no_list in H. unfold Gemini.listed.
  destruct r as [res|e]; [|reflexivity].
  destruct (ok res); cbn [negb orb] in *; [|reflexivity].
  destruct (json res) as [data|e]; [|reflexivity].
  destruct (Value.Get data (lit "models")) as [[]|e]; try reflexivity.
  discriminate.
Qed.

(** X12.  [getModels] of the three network services makes exactly one
    request, the GET of the provider's model list, and when the response
    carries no list (the call fails, the status is not a success, the
    body is not JSON, or the JSON has no array under the expected key) it
    returns the empty list and throws nothing. *)
Theorem getModels_without_a_list_is_empty
    (localeCompare : JSArray.collation) (apiKey : jsstring) (net : network) :
  (no_list (lit "data") (net (OpenAI.models_request apiKey)) = true ->
   OpenAI.getModels localeCompare apiKey net
   = ([OpenAI.models_request apiKey], Some []))
  /\ (no_list (lit "data") (net (Anthropic.models_request apiKey)) = true ->
   Anthropic.getModels localeCompare apiKey net
   = ([Anthropic.models_request apiKey], Some []))
  /\ (no_list (lit "models") (net (Gemini.models_request apiKey)) = true ->
   Gemini.getModels localeCompare apiKey net
   = ([Gemini.models_request apiKey], Some [])).
Proof.
  unfold OpenAI.getModels, Anthropic.getModels, Gemini.getModels,
    Net.bind, Net.fetch, Net.ret. cbn [app].
  repeat split; intros H.
  - now rewrite (listed_no_list_openai _ localeCompare H).
  - now rewrite (listed_no_list_anthropic _ localeCompare H).
  - now rewrite (listed_no_list_gemini _ localeCompare H).
Qed.

Lemma getModels_without_a_list_is_empty_witness :
  Gemini.getModels by_code_unit (lit "AIzaSyA-0123456")
    (fun _ => Normal (ok_with (dq "{'error':{'code':400}}")))
  = ([Gemini.models_request (lit "AIzaSyA-0123456")], Some []).
Proof.
  apply (proj2 (proj2 (getModels_without_a_list_is_empty by_code_unit
                         (lit "AIzaSyA-0123456")
                         (fun _ => Normal (ok_with (dq "{'error':{'code':400}}")))))
           eq_refl).
Defined.

Lemma insert_perm (compare : jsstring -> jsstring -> Z) (x : jsstring)
    (l : list jsstring) :
  Permutation (JSArray.insert compare x l) (x :: l).
Proof.
  induction l as [|y l IH]; cbn [JSArray.insert]; [reflexivity|].
  destruct (Z.ltb _ 0); [reflexivity|].
  rewrite IH. apply perm_swap.
Qed.

Lemma sort_strings_perm (compare : jsstring -> jsstring -> Z) (a : list jsstring) :
  Permutation (JSArray.sort_strings compare a) a.
Proof.
  unfold JSArray.sort_strings.
  assert (G : forall acc,
             Permutation (fold_left (fun sorted x => JSArray.insert compare x sorted)
                            a acc) (acc ++ a)).
  { induction a as [|x a IH]; intros acc; cbn [fold_left].
    - now rewrite app_nil_r.
    - rewrite IH, insert_perm. cbn [app]. apply Permutation_middle. }
  exact (G []).
Qed.

Lemma insert_sorted (lc : JSArray.collation) (x : jsstring)
    (l : list jsstring) :
  (forall a b, (0 <= lc a b)%Z -> (lc b a <= 0)%Z) ->
  Sorted (fun x y => (lc y x <= 0)%Z) l ->
  Sorted (fun x y => (lc y x <= 0)%Z) (JSArray.insert (fun a b => lc b a) x l).
Proof.
  intros Hc.
  induction l as [|y l IH]; intros Hs; cbn [JSArray.insert].
  - repeat constructor.
  - destruct (Z.ltb_spec (lc y x) 0) as [Hlt|Hge].
    + constructor; [assumption|]. constructor. lia.
    + inversion Hs as [|? ? Hs' Hhd]; subst.
      constructor; [now apply IH|].
      destruct l as [|z l]; cbn [JSArray.insert].
      * constructor. now apply Hc.
      * destruct (Z.ltb (lc z x) 0).
        -- constructor. now apply Hc.
        -- inversion Hhd; subst. now constructor.
Qed.

Lemma sort_strings_descending (lc : JSArray.collation) (a : list jsstring) :
  consistent lc ->
  descending lc (JSArray.sort_strings (fun x y => lc y x) a).
Proof.
  intros [Hanti Htrans]. unfold descending.
  apply Sorted_StronglySorted.
  { intros x y z Hxy Hyz. exact (Htrans z y x Hyz Hxy). }
  unfold JSArray.sort_strings.
  assert (G : forall acc, Sorted (fun x y => (lc y x <= 0)%Z) acc ->
             Sorted (fun x y => (lc y x <= 0)%Z)
               (fold_left (fun sorted x => JSArray.insert (fun a b => lc b a) x sorted)
                  a acc)).
  { induction a as [|x a IH]; intros acc Hacc; cbn [fold_left]; [assumption|].
    apply IH. now apply insert_sorted. }
  apply G. constructor.
Qed.

Lemma strings_of_strings (l : list jsstring) :
  JSArray.strings (List.map JStr l) = Some l.
Proof.
  induction l as [|x l IH]; cbn [List.map JSArray.strings]; [reflexivity|].
  now rewrite IH.
Qed.

Lemma sort_descending_strings (lc : JSArray.collation) (l : list jsstring) :
  JSArray.sort_descending lc (List.map JStr l)
  = Some (List.map JStr (JSArray.sort_strings (fun x y => lc y x) l)).
Proof.
  unfold JSArray.sort_descending.
  assert (D : forall k, List.filter (fun v => negb (JSArray.is_undefined v))
                          (List.map JStr k) = List.map JStr k)
    by (induction k as [|x k IH]; cbn; [|rewrite IH]; reflexivity).
  assert (U : forall k, List.filter JSArray.is_undefined (List.map JStr k) = [])
    by (induction k as [|x k IH]; cbn; [|rewrite IH]; reflexivity).
  now rewrite D, U, strings_of_strings, app_nil_r.
Qed.

Lemma map_values_strings (f : jsval -> completion jsval) (g : jsstring -> jsstring)
    (ms : list jsval) (names : list jsstring) :
  Forall2 (fun m n => f m = Normal (JStr (g n))) ms names ->
  JSArray.map_values f ms = Normal (List.map JStr (List.map g names)).
Proof.
  induction 1 as [|m n ms names Hm _ IH]; cbn [JSArray.map_values List.map];
    [reflexivity|].
  now rewrite Hm, IH.
Qed.

Lemma filter_strings (f : jsval -> completion bool) (p : jsstring -> bool)
    (l : list jsstring) :
  (forall s, f (JStr s) = Normal (p s)) ->
  JSArray.filter f (List.map JStr l) = Normal (List.map JStr (List.filter p l)).
Proof.
  intros Hf. induction l as [|x l IH]; cbn [JSArray.filter List.map List.filter];
    [reflexivity|].
  rewrite Hf, IH. now destruct (p x).
Qed.

(** X13.  When the response of the Gemini model list is a success whose
    JSON holds, under [models], objects with the names [names], then
    [getModels] returns, in descending order of the collation, exactly
    the names that contain [gemini] once their first [models/] is removed:
    none is lost, none is added, none is repeated more than in the
    response. *)
Theorem gemini_getModels_lists_the_gemini_models
    (localeCompare : JSArray.collation) (apiKey : jsstring) (net : network)
    (res : Response) (data : jsval) (ms : list jsval) (names : list jsstring) :
  consistent localeCompare ->
  net (Gemini.models_request apiKey) = Normal res ->
  ok res = true ->
  json res = Normal data ->
  Value.Get data (lit "models") = Normal (JArr ms) ->
  Forall2 (fun m n => Value.Get m (lit "name") = Normal (JStr n)) ms names ->
  exists ids,
    Gemini.getModels localeCompare apiKey net
      = ([Gemini.models_request apiKey], Some (List.map JStr ids))
    /\ Permutation ids
         (List.filter (fun id => includes id (lit "gemini"))
            (List.map gemini_short names))
    /\ descending localeCompare ids.
Proof.
  intros Hc Hnet Hok Hjson Hget Hnames.
  exists (JSArray.sort_strings (fun x y => localeCompare y x)
            (List.filter (fun id => includes id (lit "gemini"))
               (List.map gemini_short names))).
  split; [|split; [apply sort_strings_perm | now apply sort_strings_descending]].
  unfold Gemini.getModels, Net.bind, Net.fetch, Net.ret. cbn [app].
  rewrite Hnet. unfold Gemini.listed. rewrite Hok, Hjson, Hget. cbn [negb JSArray.map].
  rewrite (map_values_strings Gemini.short_name gemini_short ms names).
  - rewrite (filter_strings Gemini.relevant (fun id => includes id (lit "gemini")))
      by reflexivity.
    cbn [sorted_or_empty]. now rewrite sort_descending_strings.
  - eapply Forall2_impl; [|exact Hnames].
    intros m n Hm. unfold Gemini.short_name. now rewrite Hm.
Qed.

Lemma by_code_unit_consistent : consistent by_code_unit.
Proof.
  split.
  - intros a. induction a as [|x a IH]; intros [|y b]; cbn [by_code_unit];
      try lia.
    destruct (N.ltb_spec x y), (N.ltb_spec y x); try lia.
    apply IH.
  - intros a. induction a as [|x a IH]; intros [|y b] [|z c];
      cbn [by_code_unit]; try lia.
    destruct (N.ltb_spec x y), (N.ltb_spec y x), (N.ltb_spec y z),
      (N.ltb_spec z y), (N.ltb_spec x z), (N.ltb_spec z x); try lia.
    apply IH.
Qed.

Lemma gemini_getModels_lists_the_gemini_models_witness :
  exists ids,
    Gemini.getModels by_code_unit (lit "AIzaSyA-0123456")
      (fun _ => Normal (ok_with
         (dq "{'models':[{'name':'models/gemini-1.5-flash'},{'name':'models/embedding-001'},{'name':'models/gemini-1.5-pro'}]}")))
    = ([Gemini.models_request (lit "AIzaSyA-0123456")], Some (List.map JStr ids))
    /\ Permutation ids
         (List.filter (fun id => includes id (lit "gemini"))
            (List.map gemini_short
               [lit "models/gemini-1.5-flash"; lit "models/embedding-001";
                lit "models/gemini-1.5-pro"]))
    /\ descending by_code_unit ids.
Proof.
  apply (gemini_getModels_lists_the_gemini_models by_code_unit
           (lit "AIzaSyA-0123456") _
           (ok_with
              (dq "{'models':[{'name':'models/gemini-1.5-flash'},{'name':'models/embedding-001'},{'name':'models/gemini-1.5-pro'}]}"))
           (JObj [(lit "models",
                   JArr [JObj [(lit "name", JStr (lit "models/gemini-1.5-flash"))];
                         JObj [(lit "name", JStr (lit "models/embedding-001"))];
                         JObj [(lit "name", JStr (lit "models/gemini-1.5-pro"))]])])
           [JObj [(lit "name", JStr (lit "models/gemini-1.5-flash"))];
            JObj [(lit "name", JStr (lit "models/embedding-001"))];
            JObj [(lit "name", JStr (lit "models/gemini-1.5-pro"))]]
           [lit "models/gemini-1.5-flash"; lit "models/embedding-001";
            lit "models/gemini-1.5-pro"]
           by_code_unit_consistent eq_refl eq_refl eq_refl eq_refl).
  repeat constructor.
Defined.

Example gemini_getModels_sample :
  snd (Gemini.getModels by_code_unit (lit "AIzaSyA-0123456")
         (fun _ => Normal (ok_with
            (dq "{'models':[{'name':'models/gemini-1.5-flash'},{'name':'models/embedding-001'},{'name':'models/gemini-1.5-pro'}]}"))))
  = Some [JStr (lit "gemini-1.5-pro"); JStr (lit "gemini-1.5-flash")].
Proof. vm_compute. reflexivity. Qed.

(** X14.  When the response of the OpenAI model list is a success whose
    JSON holds, under [data], objects with the string ids [names], then
    [getModels] returns, in descending order of the collation, exactly
    the ids that contain [gpt] or start with [o1] or [o3]. *)
Theorem openai_getModels_lists_the_chat_models
    (localeCompare : JSArray.collation) (apiKey : jsstring) (net : network)
    (res : Response) (data : jsval) (ms : list jsval) (names : list jsstring) :
  consistent localeCompare ->
  net (OpenAI.models_request apiKey) = Normal res ->
  ok res = true ->
  json res = Normal data ->
  Value.Get data (lit "data") = Normal (JArr ms) ->
  Forall2 (fun m n => Value.Get m (lit "id") = Normal (JStr n)) ms names ->
  exists ids,
    OpenAI.getModels localeCompare apiKey net
      = ([OpenAI.models_request apiKey], Some (List.map JStr ids))
    /\ Permutation ids (List.filter openai_relevant names)
    /\ descending localeCompare ids.
Proof.
  intros Hc Hnet Hok Hjson Hget Hnames.
  exists (JSArray.sort_strings (fun x y => localeCompare y x)
            (List.filter openai_relevant names)).
  split; [|split; [apply sort_strings_perm | now apply sort_strings_descending]].
  unfold OpenAI.getModels, Net.bind, Net.fetch, Net.ret. cbn [app].
  rewrite Hnet. unfold OpenAI.listed. rewrite Hok, Hjson, Hget. cbn [negb JSArray.map].
  rewrite (map_values_strings (fun m => Value.Get m (lit "id")) (fun n => n)
             ms names Hnames).
  rewrite map_id.
  rewrite (filter_strings OpenAI.relevant openai_relevant) by reflexivity.
  cbn [sorted_or_empty]. now rewrite sort_descending_strings.
Qed.

Lemma openai_getModels_lists_the_chat_models_witness :
  exists ids,
    OpenAI.getModels by_code_unit (lit "sk-x")
      (fun _ => Normal (ok_with
         (dq "{'data':[{'id':'gpt-4o'},{'id':'whisper-1'},{'id':'o1-mini'}]}")))
    = ([OpenAI.models_request (lit "sk-x")], Some (List.map JStr ids))
    /\ Permutation ids
         (List.filter openai_relevant [lit "gpt-4o"; lit "whisper-1"; lit "o1-mini"])
    /\ descending by_code_unit ids.
Proof.
  apply (openai_getModels_lists_the_chat_models by_code_unit (lit "sk-x") _
           (ok_with (dq "{'data':[{'id':'gpt-4o'},{'id':'whisper-1'},{'id':'o1-mini'}]}"))
           (JObj [(lit "data",
                   JArr [JObj [(lit "id", JStr (lit "gpt-4o"))];
                         JObj [(lit "id", JStr (lit "whisper-1"))];
                         JObj [(lit "id", JStr (lit "o1-mini"))]])])
           [JObj [(lit "id", JStr (lit "gpt-4o"))];
            JObj [(lit "id", JStr (lit "whisper-1"))];
            JObj [(lit "id", JStr (lit "o1-mini"))]]
           [lit "gpt-4o"; lit "whisper-1"; lit "o1-mini"]
           by_code_unit_consistent eq_refl eq_refl eq_refl eq_refl).
  repeat constructor.
Defined.

(** X15.  When the response of the Anthropic model list is a success
    whose JSON holds, under [data], objects with the string ids [names],
    then [getModels] returns all of them, unfiltered, in descending order
    of the collation. *)
Theorem anthropic_getModels_lists_every_model
    (localeCompare : JSArray.collation) (apiKey : jsstring) (net : network)
    (res : Response) (data : jsval) (ms : list jsval) (names : list jsstring) :
  consistent localeCompare ->
  net (Anthropic.models_request apiKey) = Normal res ->
  ok res = true ->
  json res = Normal data ->
  Value.Get data (lit "data") = Normal (JArr ms) ->
  Forall2 (fun m n => Value.Get m (lit "id") = Normal (JStr n)) ms names ->
  exists ids,
    Anthropic.getModels localeCompare apiKey net
      = ([Anthropic.models_request apiKey], Some (List.map JStr ids))
    /\ Permutation ids names
    /\ descending localeCompare ids.
Proof.
  intros Hc Hnet Hok Hjson Hget Hnames.
  exists (JSArray.sort_strings (fun x y => localeCompare y x) names).
  split; [|split; [apply sort_strings_perm | now apply sort_strings_descending]].
  unfold Anthropic.getModels, Net.bind, Net.fetch, Net.ret. cbn [app].
  rewrite Hnet. unfold Anthropic.listed. rewrite Hok, Hjson, Hget.
  cbn [negb JSArray.map].
  rewrite (map_values_strings (fun m => Value.Get m (lit "id")) (fun n => n)
             ms names Hnames).
  rewrite map_id.
  cbn [sorted_or_empty]. now rewrite sort_descending_strings.
Qed.

Lemma anthropic_getModels_lists_every_model_witness :
  exists ids,
    Anthropic.getModels by_code_unit (lit "sk-ant-x")
      (fun _ => Normal (ok_with
         (dq "{'data':[{'id':'claude-3-haiku-20240307'},{'id':'claude-3-5-sonnet-20240620'}]}")))
    = ([Anthropic.models_request (lit "sk-ant-x")], Some (List.map JStr ids))
    /\ Permutation ids
         [lit "claude-3-haiku-20240307"; lit "claude-3-5-sonnet-20240620"]
    /\ descending by_code_unit ids.
Proof.
  apply (anthropic_getModels_lists_every_model by_code_unit (lit "sk-ant-x") _
           (ok_with (dq "{'data':[{'id':'claude-3-haiku-20240307'},{'id':'claude-3-5-sonnet-20240620'}]}"))
           (JObj [(lit "data",
                   JArr [JObj [(lit "id", JStr (lit "claude-3-haiku-20240307"))];
                         JObj [(lit "id", JStr (lit "claude-3-5-sonnet-20240620"))]])])
           [JObj [(lit "id", JStr (lit "claude-3-haiku-20240307"))];
            JObj [(lit "id", JStr (lit "claude-3-5-sonnet-20240620"))]]
           [lit "claude-3-haiku-20240307"; lit "claude-3-5-sonnet-20240620"]
           by_code_unit_consistent eq_refl eq_refl eq_refl eq_refl).
  repeat constructor.
Defined.

Lemma short_names_are_strings (elems ys : list jsval) :
  JSArray.map_values Gemini.short_name elems = Normal ys ->
  exists ss, ys = List.map JStr ss.
Proof.
  revert ys; induction elems as [|m elems IH]; intros ys; cbn [JSArray.map_values].
  - intros [= <-]. now exists [].
  - unfold Gemini.short_name at 1.
    destruct (Value.Get m (lit "name")) as [[]|]; try discriminate.
    destruct (JSArray.map_values Gemini.short_name elems) as [ys'|]; [|discriminate].
    intros [= <-]. destruct (IH ys' eq_refl) as [ss ->].
    now exists (replace s (lit "models/") [] :: ss).
Qed.

(** X16.  Whatever the network answers, [Gemini.getModels] makes one
    request, throws nothing, and returns a list of strings each of which
    contains [gemini]: its result never depends on how the engine sorts
    values that cannot be compared. *)
Theorem gemini_getModels_always_returns_gemini_ids
    (localeCompare : JSArray.collation) (apiKey : jsstring) (net : network) :
  exists ids,
    Gemini.getModels localeCompare apiKey net
      = ([Gemini.models_request apiKey], Some (List.map JStr ids))
    /\ Forall (fun id => includes id (lit "gemini") = true) ids.
Proof.
  unfold Gemini.getModels, Net.bind, Net.fetch, Net.ret. cbn [app].
  assert (Empty : exists ids : list jsstring,
             ([Gemini.models_request apiKey], Some (@nil jsval))
             = ([Gemini.models_request apiKey], Some (List.map JStr ids))
             /\ Forall (fun id => includes id (lit "gemini") = true) ids)
    by (exists []; split; [reflexivity | constructor]).
  unfold Gemini.listed.
  destruct (net (Gemini.models_request apiKey)) as [res|e]; [|exact Empty].
  destruct (ok res); cbn [negb]; [|exact Empty].
  destruct (json res) as [data|e]; [|exact Empty].
  destruct (Value.Get data (lit "models")) as [models|e]; [|exact Empty].
  destruct models as [| | | | |elems|]; try exact Empty.
  cbn [JSArray.map].
  destruct (JSArray.map_values Gemini.short_name elems) as [ys|e] eqn:E;
    [|exact Empty].
  destruct (short_names_are_strings elems ys E) as [ss ->].
  rewrite (filter_strings Gemini.relevant (fun id => includes id (lit "gemini")))
    by reflexivity.
  cbn [sorted_or_empty]. rewrite sort_descending_strings.
  eexists. split; [reflexivity|].
  eapply Permutation_Forall; [symmetry; apply sort_strings_perm|].
  apply Forall_forall. intros x Hx. now apply filter_In in Hx.
Qed.

(** ** The on-device service *)

(** The cases of [summarize]: every one is settled by looking at the
    calls and the run it gives. *)
Ltac chrome_cases :=
  unfold ChromeAI.failed, NOT_AVAILABLE; cbn [fst snd yielded ended In thrown];
  repeat split; intros;
  repeat match goal with
         | H : _ \/ _ |- _ => destruct H
         | H : False |- _ => destruct H
         | H : exists _, _ |- _ => destruct H
         | H : _ /\ _ |- _ => destruct H
         | H : Some _ = Some _ |- _ => injection H as H; subst
         | H : Threw _ = Threw _ |- _ => injection H as H; subst
         end;
  try discriminate; try congruence;
  try (left; repeat split; reflexivity);
  try (right; eexists; reflexivity);
  try (eexists; reflexivity);
  try (do 2 eexists; repeat split; try eassumption; try reflexivity;
       cbn; tauto);
  try (cbn; tauto).


(** X18.  The session of the on-device service is created exactly when
    [getAvailability] reports [AVAILABLE], which is also exactly when
    [getModels] lists [gemini-nano]; otherwise [summarize] yields
    nothing and throws. *)
Theorem chrome_availability_decides_the_session
    (content : jsstring) (options : SummaryOptions) (ai : ChromeAI.AI) :
  let (calls, r) := ChromeAI.summarize content options ai in
  let systemPrompt := or_else (customPrompt options) ChromeAI.DEFAULT_SYSTEM_PROMPT in
  (ChromeAI.getAvailability ai = ChromeAI.AVAILABLE <->
     In (ChromeAI.Create systemPrompt) calls)
  /\ (ChromeAI.getAvailability ai = ChromeAI.AVAILABLE <->
     ChromeAI.getModels ai = [lit "gemini-nano"])
  /\ (ChromeAI.getAvailability ai <> ChromeAI.AVAILABLE ->
     yielded r = [] /\ exists e, ended r = Threw e).
Proof.
  unfold ChromeAI.summarize, ChromeAI.getModels, ChromeAI.getAvailability.
  destruct ai as [lm|]; [|chrome_cases].
  destruct (ChromeAI.available lm) as [a|m]; [|chrome_cases].
  destruct (Value.is_string a (lit "no")); [chrome_cases|].
  destruct (ChromeAI.create lm) as [s|m]; [|chrome_cases].
  destruct (ChromeAI.failure s); chrome_cases.
Qed.

(** ** The catalog of models *)

Lemma known_provider_cases (p : jsstring) :
  known_provider p = true ->
  p = lit "openai" \/ p = lit "anthropic" \/ p = lit "gemini" \/ p = lit "chrome".
Proof.
  unfold known_provider. cbn [existsb].
  rewrite !orb_true_iff, !eqb_eq. intuition discriminate.
Qed.

Lemma has_iff (l : list jsstring) (x : jsstring) :
  App.has l x = true <-> In x l.
Proof.
  split; [apply has_In|].
  intros H. unfold App.has. apply existsb_exists. exists x.
  split; [assumption | apply eqb_refl].
Qed.

Lemma currentModels_never_empty (cachedModels : Catalog.cache) (p : jsstring) :
  known_provider p = true ->
  exists l, Catalog.currentModels cachedModels p = Catalog.Own l /\ l <> [].
Proof.
  intros Hp. unfold Catalog.currentModels, Catalog.get.
  destruct (Catalog.own cachedModels p) as [[|m ms]|] eqn:E.
  - cbn [length Nat.ltb Nat.leb].
    destruct (known_provider_cases p Hp) as [-> | [-> | [-> | ->]]];
      eexists; (split; [reflexivity | discriminate]).
  - exists (m :: ms). split; [reflexivity | discriminate].
  - destruct (known_provider_cases p Hp) as [-> | [-> | [-> | ->]]];
      eexists; (split; [reflexivity | discriminate]).
Qed.

(** X19.  For each of the four providers, whatever the cache holds,
    [currentModels] is a list that is not empty: the cached list of the
    provider when there is one and it is not empty, the default list of
    the provider otherwise. *)
Theorem currentModels_is_never_empty
    (cachedModels : Catalog.cache) (p : jsstring) :
  known_provider p = true ->
  exists l,
    Catalog.currentModels cachedModels p = Catalog.Own l
    /\ l <> []
    /\ match Catalog.own cachedModels p with
       | Some (m :: ms) => l = m :: ms
       | Some [] | None => Catalog.own Catalog.DEFAULT_MODELS p = Some l
       end.
Proof.
  intros Hp. unfold Catalog.currentModels, Catalog.get.
  destruct (Catalog.own cachedModels p) as [[|m ms]|] eqn:E.
  - cbn [length Nat.ltb Nat.leb].
    destruct (known_provider_cases p Hp) as [-> | [-> | [-> | ->]]];
      eexists; (split; [reflexivity | split; [discriminate | reflexivity]]).
  - exists (m :: ms). repeat split. discriminate.
  - destruct (known_provider_cases p Hp) as [-> | [-> | [-> | ->]]];
      eexists; (split; [reflexivity | split; [discriminate | reflexivity]]).
Qed.

Lemma currentModels_is_never_empty_witness :
  exists l,
    Catalog.currentModels [(lit "openai", [])] (lit "openai") = Catalog.Own l
    /\ l <> []
    /\ Catalog.own Catalog.DEFAULT_MODELS (lit "openai") = Some l.
Proof.
  apply (currentModels_is_never_empty [(lit "openai", [])] (lit "openai") eq_refl).
Defined.

Lemma own_set {A : Type} (table : list (jsstring * A)) (key q : jsstring) (v : A) :
  Catalog.own (Catalog.set table key v) q
  = if eqb key q then Some v else Catalog.own table q.
Proof.
  induction table as [|[k w] table IH]; cbn [Catalog.set Catalog.own].
  - reflexivity.
  - destruct (eqb k key) eqn:Ek; cbn [Catalog.own].
    + apply eqb_eq in Ek. subst k. now destruct (eqb key q).
    + rewrite IH. destruct (eqb k q) eqn:Eq; [|reflexivity].
      apply eqb_eq in Eq. subst k.
      destruct (eqb key q) eqn:E; [|reflexivity].
      apply eqb_eq in E. subst key. now rewrite eqb_refl in Ek.
Qed.

(** X20.  [fetchModels] never touches the cached list of another
    provider.  Whenever the key is not empty and the service of the
    provider returns a list that is not empty, the list of the provider
    is replaced as a whole by that list, which is then what
    [currentModels] gives.  In every other case (empty key, no service
    for the provider, failure of the service, empty list) the cache is
    exactly what it was, and with an empty key no request is made and
    the flag stays as it is. *)
Theorem fetchModels_replaces_one_list_or_nothing
    (services : list (jsstring * Catalog.LLMService))
    (provider apiKey : jsstring) (cachedModels : Catalog.cache)
    (isFetchingModels : bool) (net : network) :
  let result :=
    Catalog.fetchModels services provider apiKey cachedModels
      isFetchingModels net in
  let cache' := fst (snd result) in
  (forall q, eqb provider q = false ->
     Catalog.own cache' q = Catalog.own cachedModels q)
  /\ (forall service m ms,
        eqb apiKey [] = false ->
        Catalog.get services provider = Catalog.Own service ->
        snd (Catalog.getModels service apiKey net) = Normal (m :: ms) ->
        Catalog.own cache' provider = Some (m :: ms)
        /\ Catalog.currentModels cache' provider = Catalog.Own (m :: ms)
        /\ result = (fst (Catalog.getModels service apiKey net),
                     (Catalog.set cachedModels provider (m :: ms), false)))
  /\ (forall service,
        eqb apiKey [] = false ->
        Catalog.get services provider = Catalog.Own service ->
        (snd (Catalog.getModels service apiKey net) = Normal []
         \/ exists e, snd (Catalog.getModels service apiKey net) = Throw e) ->
        result = (fst (Catalog.getModels service apiKey net),
                  (cachedModels, false)))
  /\ (eqb apiKey [] = false ->
      (forall service, Catalog.get services provider <> Catalog.Own service) ->
      result = ([], (cachedModels, false)))
  /\ (eqb apiKey [] = true ->
      result = ([], (cachedModels, isFetchingModels))).
Proof.
  unfold Catalog.fetchModels. cbv zeta.
  destruct (eqb apiKey []) eqn:Ek.
  - cbn [fst snd Net.ret]. repeat split; try discriminate; reflexivity.
  - destruct (Catalog.get services provider) as [service| |] eqn:Es;
      [|cbn [fst snd Net.ret]; repeat split; try discriminate; reflexivity..].
    unfold Net.bind, Net.ret.
    destruct (Catalog.getModels service apiKey net) as [calls models] eqn:Eg.
    cbn [fst snd]. rewrite app_nil_r.
    split; [|split; [|split; [|split]]].
    + intros q Hq. destruct models as [[|m ms]|e]; cbn [fst];
        [reflexivity | | reflexivity]. now rewrite own_set, Hq.
    + intros service' m ms _ [= <-] Em. rewrite Eg in *. cbn [fst snd] in *.
      subst models. cbn [fst]. repeat split.
      * now rewrite own_set, eqb_refl.
      * unfold Catalog.currentModels, Catalog.get.
        now rewrite own_set, eqb_refl.
    + intros service' _ [= <-] H. rewrite Eg in *. cbn [fst snd] in *.
      destruct H as [-> | [e ->]]; reflexivity.
    + intros _ H. now destruct (H service).
    + discriminate.
Qed.

Example fetchModels_on_a_fixed_service :
  snd (Catalog.fetchModels [(lit "fixed", fixed_service (Normal [lit "m2"]))]
         (lit "fixed") (lit "key") [(lit "fixed", [lit "m1"])] true
         unauthorized)
  = ([(lit "fixed", [lit "m2"])], false)
  /\ snd (Catalog.fetchModels [(lit "fixed", fixed_service (Throw TypeError))]
            (lit "fixed") (lit "key") [(lit "fixed", [lit "m1"])] true
            unauthorized)
     = ([(lit "fixed", [lit "m1"])], false)
  /\ snd (Catalog.fetchModels [(lit "fixed", fixed_service (Normal [lit "m2"]))]
            (lit "fixed") [] [(lit "fixed", [lit "m1"])] true unauthorized)
     = ([(lit "fixed", [lit "m1"])], true).
Proof. repeat split. Qed.

(** X21.  For each of the four providers, once the effect that keeps the
    selected model valid has run, the selected model is one of
    [currentModels]; a selected model that already was one of them is
    kept, and running the effect again changes nothing. *)
Theorem selected_model_is_made_valid
    (cachedModels : Catalog.cache) (p selectedModel : jsstring) :
  known_provider p = true ->
  exists m l,
    Catalog.ensureValidModel cachedModels p selectedModel = Normal m
    /\ Catalog.currentModels cachedModels p = Catalog.Own l
    /\ In m l
    /\ (In selectedModel l -> m = selectedModel)
    /\ Catalog.ensureValidModel cachedModels p m = Normal m.
Proof.
  intros Hp.
  destruct (currentModels_never_empty cachedModels p Hp) as (l & El & Hne).
  unfold Catalog.ensureValidModel. rewrite El.
  destruct l as [|first rest]; [contradiction|].
  destruct (App.has (first :: rest) selectedModel) eqn:Eh; cbn [negb].
  - exists selectedModel, (first :: rest). repeat split.
    + now apply has_iff.
    + now rewrite Eh.
  - exists first, (first :: rest).
    assert (Hf : App.has (first :: rest) first = true)
      by (apply has_iff; now left).
    repeat split.
    + now left.
    + intros H. apply has_iff in H. congruence.
    + now rewrite Hf.
Qed.

Lemma selected_model_is_made_valid_witness :
  exists m l,
    Catalog.ensureValidModel [(lit "gemini", [lit "gemini-2.0-flash"])]
      (lit "gemini") (lit "gpt-4o-mini") = Normal m
    /\ Catalog.currentModels [(lit "gemini", [lit "gemini-2.0-flash"])]
         (lit "gemini") = Catalog.Own l
    /\ In m l
    /\ (In (lit "gpt-4o-mini") l -> m = lit "gpt-4o-mini")
    /\ Catalog.ensureValidModel [(lit "gemini", [lit "gemini-2.0-flash"])]
         (lit "gemini") m = Normal m.
Proof.
  apply (selected_model_is_made_valid [(lit "gemini", [lit "gemini-2.0-flash"])]
           (lit "gemini") (lit "gpt-4o-mini") eq_refl).
Defined.

(** ** Verifying a key *)




(** ** The library of saved articles *)

Lemma saved_url (articles : list Library.SavedArticle) (u : jsstring) :
  existsb (fun a => eqb (Library.url a) u) articles = false ->
  ~ In u (List.map Library.url articles).
Proof.
  induction articles as [|a articles IH]; cbn [existsb List.map In]; [tauto|].
  intros [H1 H2]%orb_false_elim [E|H]; [|now apply IH].
  subst u. now rewrite eqb_refl in H1.
Qed.

Lemma NoDup_map_filter {A B : Type} (f : A -> B) (p : A -> bool) (l : list A) :
  NoDup (List.map f l) -> NoDup (List.map f (List.filter p l)).
Proof.
  induction l as [|x l IH]; cbn [List.map List.filter]; [trivial|].
  intros H. inversion H as [|? ? Hx Hl]; subst.
  destruct (p x); [|now apply IH].
  cbn [List.map]. constructor; [|now apply IH].
  intros Hin. apply Hx. apply in_map_iff in Hin as (y & <- & Hy).
  apply in_map. now apply filter_In in Hy.
Qed.

(** X23.  The library never holds two articles with the same address:
    when the addresses are all different they still are after
    [handleSaveToLibrary] and after [handleDeleteArticle].  Saving again
    from the same tab adds nothing, whatever the summary has become, and
    after a deletion no article has the deleted id. *)
Theorem library_addresses_stay_unique
    (tabs : completion (option Library.Tab))
    (uuid now summary uuid' now' summary' id_ : jsstring)
    (state : Library.State) :
  NoDup (List.map Library.url (Library.savedArticles state)) ->
  let once := Library.handleSaveToLibrary tabs uuid now summary state in
  let twice := Library.handleSaveToLibrary tabs uuid' now' summary' once in
  let deleted := Library.handleDeleteArticle id_ state in
  NoDup (List.map Library.url (Library.savedArticles once))
  /\ Library.savedArticles twice = Library.savedArticles once
  /\ NoDup (List.map Library.url (Library.savedArticles deleted))
  /\ ~ In id_ (List.map Library.id (Library.savedArticles deleted)).
Proof.
  intros Hnd once twice deleted. repeat split.
  - unfold once, Library.handleSaveToLibrary.
    destruct tabs as [[tab|]|e]; try exact Hnd.
    destruct (Library.present (Library.tab_url tab)) as [u|]; [|exact Hnd].
    destruct (Library.present (Library.tab_title tab)) as [t|]; [|exact Hnd].
    cbn [Library.url].
    destruct (existsb _ (Library.savedArticles state)) eqn:E; [exact Hnd|].
    cbn [Library.savedArticles List.map Library.url].
    constructor; [now apply saved_url | exact Hnd].
  - unfold twice, once, Library.handleSaveToLibrary.
    destruct tabs as [[tab|]|e]; try reflexivity.
    destruct (Library.present (Library.tab_url tab)) as [u|]; [|reflexivity].
    destruct (Library.present (Library.tab_title tab)) as [t|]; [|reflexivity].
    cbn [Library.url].
    destruct (existsb _ (Library.savedArticles state)) eqn:E;
      cbn [Library.savedArticles].
    + now rewrite E.
    + cbn [existsb Library.url]. now rewrite eqb_refl.
  - unfold deleted, Library.handleDeleteArticle. cbn [Library.savedArticles].
    now apply NoDup_map_filter.
  - unfold deleted, Library.handleDeleteArticle. cbn [Library.savedArticles].
    intros Hin. apply in_map_iff in Hin as (a & E & Ha).
    apply filter_In in Ha as [_ Ha]. subst id_.
    now rewrite eqb_refl in Ha.
Qed.

Lemma library_addresses_stay_unique_witness :
  Library.savedArticles
    (Library.handleSaveToLibrary
       (Normal (Some {| Library.tab_url := Some (lit "https://example.org/a");
                        Library.tab_title := Some (lit "A") |}))
       (lit "id-2") (lit "2026-01-02") (lit "# Later")
       (Library.handleSaveToLibrary
          (Normal (Some {| Library.tab_url := Some (lit "https://example.org/a");
                           Library.tab_title := Some (lit "A") |}))
          (lit "id-1") (lit "2026-01-01") []
          {| Library.savedArticles := []; Library.saveStatus := Library.idle;
             Library.errorMsg := [] |}))
  = Library.savedArticles
      (Library.handleSaveToLibrary
         (Normal (Some {| Library.tab_url := Some (lit "https://example.org/a");
                          Library.tab_title := Some (lit "A") |}))
         (lit "id-1") (lit "2026-01-01") []
         {| Library.savedArticles := []; Library.saveStatus := Library.idle;
            Library.errorMsg := [] |}).
Proof.
  apply (library_addresses_stay_unique
           (Normal (Some {| Library.tab_url := Some (lit "https://example.org/a");
                            Library.tab_title := Some (lit "A") |}))
           (lit "id-1") (lit "2026-01-01") [] (lit "id-2") (lit "2026-01-02")
           (lit "# Later") (lit "id-1")
           {| Library.savedArticles := []; Library.saveStatus := Library.idle;
              Library.errorMsg := [] |}
           (NoDup_nil _)).
Defined.

Lemma line_plain (t rest : jsstring) :
  forallb plain t = true ->
  match rest with
  | [] => True
  | c :: _ => Library.is_line_terminator c = true
  end ->
  Library.line (t ++ rest) = (t, rest).
Proof.
  intros Ht Hr. induction t as [|c t IH]; cbn [app Library.line].
  - destruct rest as [|c rest]; [reflexivity|].
    cbn [Library.line]. now rewrite Hr.
  - cbn [forallb] in Ht. apply andb_prop in Ht as [Hc Ht].
    unfold plain in Hc. apply negb_true_iff in Hc. rewrite Hc.
    now rewrite (IH Ht).
Qed.

Lemma spaces_run (ws rest : jsstring) :
  forallb is_space ws = true ->
  match rest with
  | [] => True
  | c :: _ => is_space c = false
  end ->
  Library.spaces (ws ++ rest) = length ws.
Proof.
  intros Hw Hr. induction ws as [|c ws IH]; cbn [app Library.spaces length].
  - destruct rest as [|c rest]; [reflexivity|].
    cbn [Library.spaces]. now rewrite Hr.
  - cbn [forallb] in Hw. apply andb_prop in Hw as [Hc Hw].
    rewrite Hc. now rewrite (IH Hw).
Qed.

(** X24.  When the summary starts with [#], white space, and then a
    heading that starts with a visible character and runs to a line feed
    or to the end of the summary, the title of the saved article is that
    heading, trimmed, instead of the title of the tab. *)
Theorem title_is_the_heading_of_the_summary
    (tab_title ws c : _) (t rest : jsstring) :
  ws <> [] ->
  forallb is_space ws = true ->
  is_space c = false ->
  forallb plain (c :: t) = true ->
  (rest = [] \/ exists rest', rest = NEWLINE :: rest') ->
  Library.titleToSave tab_title ([35%N] ++ ws ++ (c :: t) ++ rest)
  = trim (c :: t).
Proof.
  intros Hne Hw Hc Ht Hr.
  destruct ws as [|w ws]; [contradiction|].
  assert (Hs : Library.spaces ((w :: ws) ++ (c :: t) ++ rest)
               = length (w :: ws))
    by (apply spaces_run; [exact Hw | exact Hc]).
  assert (Hk : skipn (length (w :: ws)) ((w :: ws) ++ (c :: t) ++ rest)
               = (c :: t) ++ rest)
    by (now rewrite skipn_app, skipn_all, Nat.sub_diag).
  assert (Hl : Library.rest_of_heading ((c :: t) ++ rest) = Some (c :: t)).
  { unfold Library.rest_of_heading. rewrite (line_plain (c :: t) rest Ht).
    - destruct Hr as [-> | [rest' ->]]; reflexivity.
    - destruct Hr as [-> | [rest' ->]]; [exact I | reflexivity]. }
  unfold Library.titleToSave, Library.heading.
  change ([35%N] ++ (w :: ws) ++ (c :: t) ++ rest)
    with (35%N :: (w :: ws) ++ (c :: t) ++ rest).
  cbv beta iota. rewrite Hs.
  change (eqb (35%N :: (w :: ws) ++ (c :: t) ++ rest) []) with false.
  change (N.eqb 35 35) with true. cbv beta iota.
  change (length (w :: ws)) with (S (length ws)) in *.
  cbn [Library.backtrack]. rewrite Hk, Hl. reflexivity.
Qed.

Lemma title_is_the_heading_of_the_summary_witness :
  Library.titleToSave (lit "Tab")
    ([35%N] ++ lit " " ++ lit "Rocq in brief  " ++ (NEWLINE :: lit "Body."))
  = lit "Rocq in brief".
Proof.
  apply (title_is_the_heading_of_the_summary (lit "Tab") (lit " ") 82%N
           (lit "ocq in brief  ") (NEWLINE :: lit "Body.")
           ltac:(discriminate) eq_refl eq_refl eq_refl
           (or_intror (ex_intro _ (lit "Body.") eq_refl))).
Defined.

Example heading_before_a_carriage_return :
  Library.titleToSave (lit "Tab") (lit "# Title" ++ [13%N; NEWLINE] ++ lit "Body")
  = lit "Tab"
  /\ Library.titleToSave (lit "Tab") (lit "#" ++ [NEWLINE; NEWLINE] ++ lit "Body")
     = lit "Body"
  /\ Library.titleToSave (lit "Tab") (lit "Intro" ++ [NEWLINE] ++ lit "# Title")
     = lit "Tab".
Proof. repeat split. Qed.
